(** * Purdue coordination diagram: the derivation engine of
      [purdue_plot_for_wl.py], embedded and verified.

    The development follows the Python module function by function.

    Modelling conventions.
    - A Python [float] is an exact rational ([Q]) kept in lowest terms, so
      that Leibniz equality on the values the program builds is Python's
      [==].  The sums and differences the module forms itself are taken
      exactly; the one float product it causes, inside [timedelta], is
      rounded to binary64 as the interpreter rounds it.
    - A [datetime] is the number of seconds since the epoch on the wall
      clock the process runs on, whose zone is a whole number of minutes
      from UTC; [timestamp] reads it back as a float and [second] is the
      seconds-within-minute field.  Python has no leap seconds.  Adding a
      [timedelta] is exact on the wall clock and raises OverflowError
      outside the years 1 to 9999.
    - A [dict] is an insertion-ordered association list; [defaultdict]
      look-ups insert the default on a miss, as Python does.
    - A function that mutates its argument and may raise is a state
      transformer returning the store it reached together with [Ok] or
      the exception. *)

From Stdlib Require Import String Ascii.
From Stdlib Require Import ZArith QArith Qround Qreduction Qabs Qpower.
From Stdlib Require Import List Bool Lia Lqa Permutation Sorted.
Import ListNotations.
Local Open Scope string_scope.
Local Open Scope Q_scope.
Local Open Scope list_scope.

Set Warnings "-register-all".

(* ================================================================= *)
(** ** Python values *)

Definition float := Q.

Definition fsub (a b : float) : float := Qred (a - b).
Definition fadd (a b : float) : float := Qred (a + b).
Definition of_int (z : Z) : float := inject_Z z.

(** [a <= b] and [a < b] on floats. *)
Definition fle (a b : float) : bool := Qle_bool a b.
Definition flt (a b : float) : bool := negb (Qle_bool b a).

(** [float('inf')] only ever appears as the initial value of [diff] in
    [write_events]; a float-or-infinity is an option. *)
Definition float_inf := option float.
Definition lt_inf (a : float) (d : float_inf) : bool :=
  match d with
  | None => true
  | Some b => flt a b
  end.

Record datetime := { since_epoch : Q }.

(** [tyme.timestamp()] *)
Definition timestamp (t : datetime) : float := Qred (since_epoch t).

(** [tyme.second]: the seconds field, in 0..59. *)
Definition second (t : datetime) : Z := (Qfloor (since_epoch t) mod 60)%Z.

Inductive exn :=
| AttributeError | KeyError | ValueError | TypeError | OverflowError.

Inductive result (A : Type) :=
| Ok (a : A)
| Raise (e : exn).
Arguments Ok {A} a.
Arguments Raise {A} e.

(** [l[-k]] for [k >= 1]; [None] stands for IndexError. *)
Definition index_from_end {A} (l : list A) (k : nat) : option A :=
  if (1 <=? k)%nat && (k <=? length l)%nat
  then nth_error l (length l - k)
  else None.

(* ================================================================= *)
(** ** objects.py *)

Inductive TLColor := GREEN | YELLOW | RED.

(** Iteration order of [for color in TLColor]. *)
Definition TLColor_members : list TLColor := [GREEN; YELLOW; RED].

Definition TLColor_value (c : TLColor) : string :=
  match c with
  | GREEN => "green"
  | YELLOW => "yellow"
  | RED => "red"
  end.

Record Location := { rsu_id : Z; bound : string; movement : string }.

Definition Location_eqb (a b : Location) : bool :=
  Z.eqb (rsu_id a) (rsu_id b)
  && String.eqb (bound a) (bound b)
  && String.eqb (movement a) (movement b).

Record Point := { x : float; y : float }.

(* ================================================================= *)
(** ** Dictionaries *)

(** A dictionary keyed by [TLColor]: one slot per member. *)
Record ByColor (A : Type) := { green : A; yellow : A; red : A }.
Arguments green {A} _.
Arguments yellow {A} _.
Arguments red {A} _.

Definition at_color {A} (d : ByColor A) (c : TLColor) : A :=
  match c with
  | GREEN => green d
  | YELLOW => yellow d
  | RED => red d
  end.

Definition set_color {A} (c : TLColor) (v : A) (d : ByColor A) : ByColor A :=
  match c with
  | GREEN => {| green := v; yellow := yellow d; red := red d |}
  | YELLOW => {| green := green d; yellow := v; red := red d |}
  | RED => {| green := green d; yellow := yellow d; red := v |}
  end.

Definition all_colors {A} (v : A) : ByColor A :=
  {| green := v; yellow := v; red := v |}.

(** An insertion-ordered dictionary keyed by [Location]. *)
Definition dict (V : Type) := list (Location * V).

Fixpoint dict_get {V} (d : dict V) (k : Location) : option V :=
  match d with
  | [] => None
  | (k', v) :: d' => if Location_eqb k' k then Some v else dict_get d' k
  end.

(** [d[k] = v]: overwrite in place, or add the key at the end. *)
Fixpoint dict_set {V} (k : Location) (v : V) (d : dict V) : dict V :=
  match d with
  | [] => [(k, v)]
  | (k', v') :: d' =>
      if Location_eqb k' k then (k', v) :: d'
      else (k', v') :: dict_set k v d'
  end.

(** Reading [d[k]] from a [defaultdict]: the value, and the dictionary
    with [k] inserted when it was missing. *)
Definition lookup {V} (default : V) (d : dict V) (k : Location) : V :=
  match dict_get d k with
  | Some v => v
  | None => default
  end.

Definition vivify {V} (default : V) (k : Location) (d : dict V) : dict V :=
  match dict_get d k with
  | Some _ => d
  | None => dict_set k default d
  end.

(* ================================================================= *)
(** ** Mutation and exceptions *)

Definition M (S A : Type) := S -> S * result A.

Definition ret {S A} (a : A) : M S A := fun s => (s, Ok a).

Definition raise {S A} (e : exn) : M S A := fun s => (s, Raise e).

Definition bind {S A B} (m : M S A) (k : A -> M S B) : M S B :=
  fun s =>
    match m s with
    | (s', Ok a) => k a s'
    | (s', Raise e) => (s', Raise e)
    end.

Notation "a <- m ;; k" := (bind m (fun a => k))
  (at level 61, m at next level, right associativity).
Notation "m ;; k" := (bind m (fun _ => k))
  (at level 61, right associativity).

(** [for a in l: body(a)] *)
Fixpoint for_each {S A} (l : list A) (body : A -> M S unit) : M S unit :=
  match l with
  | [] => ret tt
  | a :: l' => body a ;; for_each l' body
  end.

(* ================================================================= *)
(** ** purdue_plot_for_wl.py: the stores *)

(** [Dict[TLColor, Optional[datetime]]] *)
Definition CycleDatum := ByColor (option datetime).
(** [CycleDataType] *)
Definition CycleDataType := dict (list CycleDatum).
(** [ControllerEventsType] *)
Definition ControllerEventsType := dict (list datetime).
(** [StoredCyclePointsType]: [defaultdict(lambda: defaultdict(list))] *)
Definition StoredCyclePointsType := dict (ByColor (list Point)).
(** [StoredEventsType]: [defaultdict(list)] *)
Definition StoredEventsType := dict (list (list float)).

Definition no_points : ByColor (list Point) := all_colors [].

(** [stored_cycle_points[loc][color]], read-only part. *)
Definition points_of (s : StoredCyclePointsType) (loc : Location)
  (c : TLColor) : list Point :=
  at_color (lookup no_points s loc) c.

(** [stored_events[loc]], read-only part. *)
Definition batches_of (s : StoredEventsType) (loc : Location)
  : list (list float) :=
  lookup [] s loc.

(* ================================================================= *)
(** ** update_stored_cycle_points *)

(** [Point(tyme.timestamp(), tyme.second)] *)
Definition seconds_point (tyme : datetime) : Point :=
  {| x := timestamp tyme; y := of_int (second tyme) |}.

(** [Point(tyme.timestamp(), p.y + tyme.timestamp() - p.x)] *)
Definition chained_point (tyme : datetime) (p : Point) : Point :=
  {| x := timestamp tyme;
     y := fsub (fadd (y p) (timestamp tyme)) (x p) |}.

(** The if/elif chain of lines 157-211.  [Ok None] is the [continue] of
    line 158; [Ok (Some p)] is the value assigned to
    [curr_cycle_points[color]]. *)
Definition derive_point (color : TLColor) (tyme : option datetime)
  (prev_point prev_red_point : option Point)
  (curr_cycle_points : ByColor (option Point)) : result (option Point) :=
  match tyme, prev_point with
  | None, None => Ok None
  | None, Some prev => Ok (Some prev)
  | Some tyme, None => Ok (Some (seconds_point tyme))
  | Some tyme, Some _ =>
      match color with
      | GREEN =>
          (* prev_red_point.x, with no test that prev_red_point is set *)
          match prev_red_point with
          | None => Raise AttributeError
          | Some prev_red =>
              Ok (Some {| x := timestamp tyme;
                          y := fsub (timestamp tyme) (x prev_red) |})
          end
      | YELLOW =>
          match at_color curr_cycle_points GREEN with
          | Some g => Ok (Some (chained_point tyme g))
          | None => Ok (Some (seconds_point tyme))
          end
      | RED =>
          match at_color curr_cycle_points YELLOW with
          | Some yl => Ok (Some (chained_point tyme yl))
          | None =>
              match at_color curr_cycle_points GREEN with
              | Some g => Ok (Some (chained_point tyme g))
              | None => Ok (Some (seconds_point tyme))
              end
          end
      end
  end.

(** Lines 213-217: append, then drop the head once the list has 4. *)
Definition append_capped (points : list Point) (p : Point) : list Point :=
  let points := points ++ [p] in
  if (length points =? 4)%nat then tl points else points.

(** The state of the loop over colors: the store and the local
    [curr_cycle_points]. *)
Definition ColorLoopState : Type :=
  StoredCyclePointsType * ByColor (option Point).

(** Body of [for color in TLColor] (lines 144-217). *)
Definition color_body (loc : Location) (datum : CycleDatum)
  (color : TLColor) : M ColorLoopState unit :=
  fun '(stored, curr) =>
    let stored := vivify no_points loc stored in
    let lists := lookup no_points stored loc in
    let tyme := at_color datum color in
    let prev_point := index_from_end (at_color lists color) 1 in
    let prev_red_point := index_from_end (at_color lists RED) 1 in
    match derive_point color tyme prev_point prev_red_point curr with
    | Raise e => ((stored, curr), Raise e)
    | Ok None => ((stored, curr), Ok tt)
    | Ok (Some p) =>
        let points := append_capped (at_color lists color) p in
        ((dict_set loc (set_color color points lists) stored,
          set_color color (Some p) curr), Ok tt)
    end.

(** Body of [for datum in data] (lines 140-217). *)
Definition datum_body (loc : Location) (datum : CycleDatum)
  : M StoredCyclePointsType unit :=
  fun stored =>
    let '((stored', _), r) :=
      for_each TLColor_members (color_body loc datum)
        (stored, all_colors None) in
    (stored', r).

Definition update_stored_cycle_points (all_cycle_data : CycleDataType)
  : M StoredCyclePointsType unit :=
  for_each all_cycle_data
    (fun '(loc, data) => for_each data (datum_body loc)).

(* ================================================================= *)
(** ** update_stored_events *)

Definition events_body (stored : StoredEventsType)
  (item : Location * list datetime) : StoredEventsType :=
  let '(loc, events) := item in
  let stored := vivify [] loc stored in
  let batches := lookup [] stored loc in
  let batches := if (length batches =? 3)%nat then tl batches else batches in
  dict_set loc (batches ++ [map timestamp events]) stored.

Definition update_stored_events (all_new_events : ControllerEventsType)
  (stored_events : StoredEventsType) : StoredEventsType :=
  fold_left events_body all_new_events stored_events.

(* ================================================================= *)
(** ** Output files *)

(** A CSV row: [DATA_HEADER], or the list built by [make_data_row].  The
    five formatted renderings of [x_val] that follow [y_val] in a data row
    are functions of [x_val] alone and are left out. *)
Inductive Row :=
| Header
| Data (rsu : Z) (bound_ movement_ : string) (x_val y_val : float).

Definition make_data_row (loc : Location) (x_val y_val : float) : Row :=
  Data (rsu_id loc) (bound loc) (movement loc) x_val y_val.

(** The four output files: [COLOR_TO_OUT_FILE] and [EVENT_OUT_FILE]. *)
Record Files := { lines : ByColor (list Row); dots : list Row }.

(** [write_header(COLOR_TO_OUT_FILE[color])]: truncate, write the header. *)
Definition write_color_header (color : TLColor) (fs : Files) : Files :=
  {| lines := set_color color [Header] (lines fs); dots := dots fs |}.

(** Open [COLOR_TO_OUT_FILE[color]] in append mode and write [rows]. *)
Definition append_lines (color : TLColor) (rows : list Row) (fs : Files)
  : Files :=
  {| lines := set_color color (at_color (lines fs) color ++ rows) (lines fs);
     dots := dots fs |}.

(* ================================================================= *)
(** ** write_cycle_data *)

(** Body of [for color, points in stored_points.items()] (lines 249-259).
    The inner dictionary holds a subset of the three colors and a color
    it lacks writes nothing, as an empty list does; each color has a file
    of its own, so the order of the colors does not show in any file. *)
Definition cycle_rows_body (loc : Location)
  (stored_points : ByColor (list Point)) (fs : Files) (color : TLColor)
  : Files :=
  let points := at_color stored_points color in
  if (length points <? 2)%nat then fs
  else
    match index_from_end points 2, index_from_end points 1 with
    | Some p2, Some p1 =>
        let x_vals := [x p2; x p1] in
        let y_vals := [y p2; y p1] in
        append_lines color
          (map (fun '(x_val, y_val) => make_data_row loc x_val y_val)
             (combine x_vals y_vals))
          fs
    | _, _ => fs
    end.

Definition write_cycle_data (stored_cycle_points : StoredCyclePointsType)
  (fs : Files) : Files :=
  let fs := fold_left (fun fs color => write_color_header color fs)
              TLColor_members fs in
  fold_left
    (fun fs '(loc, stored_points) =>
       fold_left (cycle_rows_body loc stored_points) TLColor_members fs)
    stored_cycle_points fs.

(* ================================================================= *)
(** ** write_events *)

(** [sorted(events)]: the stable ascending sort. *)
Fixpoint insert_sorted (e : float) (l : list float) : list float :=
  match l with
  | [] => [e]
  | a :: l' => if fle e a then e :: l else a :: insert_sorted e l'
  end.

Definition sorted (l : list float) : list float :=
  fold_right insert_sorted [] l.

(** Lines 275-278: the loop over the RED points, from [diff = inf]. *)
Definition red_step (event : float) (diff : float_inf) (point : Point)
  : float_inf :=
  if fle 0 (fsub event (x point)) && lt_inf (fsub event (x point)) diff
  then Some (fsub event (x point))
  else diff.

Definition closest_red (event : float) (reds : list Point) : float_inf :=
  fold_left (red_step event) reds None.

(** Lines 272-282: the loop over the sorted events. *)
Definition event_step (reds : list Point)
  (vals : list float * list float) (event : float)
  : list float * list float :=
  let '(x_vals, y_vals) := vals in
  match closest_red event reds with
  | None => (x_vals, y_vals)
  | Some diff => (x_vals ++ [event], y_vals ++ [diff])
  end.

(** Body of [for loc, all_events in stored_events.items()]
    (lines 268-287).  The store is read through [defaultdict], so the
    test on the RED points inserts [loc] when it is evaluated. *)
Definition events_rows_body
  (st : list Row * StoredCyclePointsType)
  (item : Location * list (list float))
  : list Row * StoredCyclePointsType :=
  let '(rows, stored_cycle_points) := st in
  let '(loc, all_events) := item in
  if (length all_events <? 3)%nat then (rows, stored_cycle_points)
  else
    let stored_cycle_points := vivify no_points loc stored_cycle_points in
    let reds := points_of stored_cycle_points loc RED in
    if (length reds <? 3)%nat then (rows, stored_cycle_points)
    else
      match nth_error all_events 0 with
      | None => (rows, stored_cycle_points)
      | Some batch =>
          let '(x_vals, y_vals) :=
            fold_left (event_step reds) (sorted batch) ([], []) in
          (rows ++ map (fun '(x_val, y_val) => make_data_row loc x_val y_val)
                     (combine x_vals y_vals),
           stored_cycle_points)
      end.

Definition write_events (stored_events : StoredEventsType)
  (stored_cycle_points : StoredCyclePointsType) (fs : Files)
  : Files * StoredCyclePointsType :=
  let '(rows, stored_cycle_points) :=
    fold_left events_rows_body stored_events ([Header], stored_cycle_points)
  in
  ({| lines := lines fs; dots := rows |}, stored_cycle_points).

(* ================================================================= *)
(** ** The messages of the two APIs *)

(** What [json.loads] returns.  A number is an int or a finite float; an
    object lists its items in order, each key once. *)
Inductive json :=
| JNull
| JBool (b : bool)
| JNum (q : Q)
| JStr (s : string)
| JArr (l : list json)
| JObj (items : list (string * json)).

(** A message is a dictionary with string keys. *)
Definition Message := list (string * json).

Fixpoint msg_get (m : Message) (key : string) : option json :=
  match m with
  | [] => None
  | (k, v) :: m' => if String.eqb k key then Some v else msg_get m' key
  end.

(** [v != 200] *)
Definition ne_200 (v : json) : bool :=
  match v with
  | JNum q => negb (Qeq_bool q 200)
  | _ => true
  end.

(** ['statusCode' not in msg or msg['statusCode'] != 200] *)
Definition status_failed (msg : Message) : bool :=
  match msg_get msg "statusCode" with
  | None => true
  | Some v => ne_200 v
  end.

(** [bool(v)] *)
Definition truthy (v : json) : bool :=
  match v with
  | JNull => false
  | JBool b => b
  | JNum q => negb (Qeq_bool q 0)
  | JStr s => negb (String.eqb s EmptyString)
  | JArr l => negb (length l =? 0)%nat
  | JObj l => negb (length l =? 0)%nat
  end.

(** [v.items()] *)
Definition items_of (v : json) : result (list (string * json)) :=
  match v with
  | JObj l => Ok l
  | _ => Raise AttributeError
  end.

(** [v[key]] for a string [key] *)
Definition subscript (v : json) (key : string) : result json :=
  match v with
  | JObj l =>
      match msg_get l key with
      | Some a => Ok a
      | None => Raise KeyError
      end
  | _ => Raise TypeError
  end.

(** [s.split(',')] *)
Fixpoint split_commas (s : string) : list string :=
  match s with
  | EmptyString => [EmptyString]
  | String c s' =>
      if Ascii.eqb c ","%char then EmptyString :: split_commas s'
      else
        match split_commas s' with
        | [] => [String c EmptyString]
        | w :: ws => String c w :: ws
        end
  end.

(** Rounding to the nearest integer, ties to even. *)
Definition round_half_even (q : Q) : Z :=
  let f := Qfloor q in
  match Qcompare (q - inject_Z f) (1 # 2) with
  | Lt => f
  | Gt => (f + 1)%Z
  | Eq => if Z.even f then f else (f + 1)%Z
  end.

(** The integer part of a float, toward zero ([math.modf], [int]). *)
Definition int_part (q : Q) : Z := Z.quot (Qnum q) (Zpos (Qden q)).

(** The binary64 float nearest to a rational, ties to even.  A float
    has 53 significant bits: with [2 ^ k <= |q| < 2 ^ (k + 1)] it is a
    whole multiple of [2 ^ (k - 52)].  The exponent is not bounded here;
    the one product rounded below, of a fraction by 10^6, cannot
    overflow and is exact wherever binary64 would be subnormal. *)
Definition nearest_float (q : Q) : float :=
  if Qeq_bool q 0 then 0
  else
    let a := Qabs q in
    let k := (Z.log2 (Qnum a) - Z.log2 (Zpos (Qden a)))%Z in
    let k := if Qle_bool (2 ^ k) a then k else (k - 1)%Z in
    let m := round_half_even (a / 2 ^ (k - 52)) in
    Qred ((if Qle_bool 0 q then 1 else -1) * (inject_Z m * 2 ^ (k - 52))).

(** [a * b] on floats, rounded as the hardware rounds it. *)
Definition fmul (a b : float) : float := nearest_float (a * b).

(** The microseconds of [timedelta(seconds=s)] for a float [s], as the
    interpreter computes them: the integer part of [s] is converted
    exactly, the fraction is multiplied by 10^6 in float arithmetic,
    and the sum is rounded to a whole number, ties to even. *)
Definition timedelta_microseconds (s : float) : Z :=
  let intpart := int_part s in
  let fracpart := s - inject_Z intpart in
  round_half_even (inject_Z (intpart * 1000000) + fmul 1000000 fracpart).

Definition MAX_DELTA_DAYS : Z := 999999999.

(** [timedelta(seconds=s)], in seconds: a whole number of microseconds,
    and OverflowError when the days of the result exceed
    [MAX_DELTA_DAYS] in magnitude. *)
Definition timedelta_seconds (s : float) : result Q :=
  let us := timedelta_microseconds s in
  let days := (us / 86400000000)%Z in
  if (Z.abs days <=? MAX_DELTA_DAYS)%Z then Ok (us # 1000000)
  else Raise OverflowError.

(** The first second of the year 1 and the first second after the year
    9999, between which every [datetime] lies, as timestamps on a clock
    set to UTC; on a clock [m] minutes ahead of UTC both are [60 * m]
    lower. *)
Definition MIN_TIMESTAMP : Z := -62135596800.
Definition END_TIMESTAMP : Z := 253402300800.

(** [tyme + delta]: OverflowError when the sum is not a [datetime]. *)
Definition datetime_add (tyme : datetime) (delta : Q) : result datetime :=
  let sum := Qred (since_epoch tyme + delta) in
  if Qle_bool (inject_Z MIN_TIMESTAMP) sum
     && negb (Qle_bool (inject_Z END_TIMESTAMP) sum)
  then Ok {| since_epoch := sum |}
  else Raise OverflowError.

Definition lift {S A} (r : result A) : M S A := fun s => (s, r).

(** What a function that built [s] locally returns. *)
Definition returned {S} (out : S * result unit) : result S :=
  match out with
  | (s, Ok _) => Ok s
  | (_, Raise e) => Raise e
  end.

Section Parsers.

(** The three parsers of the Python library the module calls:
    [datetime.strptime(s, CYCLE_TIME_FMT)], [float(s)] and [int(s)];
    each raises on a string it rejects.  [float_of_str] returns the
    finite floats; for a string that [float] reads as an infinity or as
    a NaN it stands for the exception [timedelta] raises on that value
    (OverflowError, ValueError), the only use the module makes of the
    result. *)
Variable strptime : string -> result datetime.
Variable float_of_str : string -> result float.
Variable int_of_str : string -> result Z.

(** [None if not color_dict[color.value]
     else datetime.strptime(color_dict[color.value], CYCLE_TIME_FMT)] *)
Definition parse_color (color_dict : json) (color : TLColor)
  : result (option datetime) :=
  match subscript color_dict (TLColor_value color) with
  | Raise e => Raise e
  | Ok v =>
      if negb (truthy v) then Ok None
      else
        match v with
        | JStr s =>
            match strptime s with
            | Ok t => Ok (Some t)
            | Raise e => Raise e
            end
        | _ => Raise TypeError
        end
  end.

(** The dictionary comprehension of lines 106-109. *)
Definition make_datum (color_dict : json) : result CycleDatum :=
  match parse_color color_dict GREEN with
  | Raise e => Raise e
  | Ok g =>
      match parse_color color_dict YELLOW with
      | Raise e => Raise e
      | Ok yl =>
          match parse_color color_dict RED with
          | Raise e => Raise e
          | Ok r => Ok {| green := g; yellow := yl; red := r |}
          end
      end
  end.

Definition is_some {A} (o : option A) : bool :=
  match o with Some _ => true | None => false end.

(** [any(datum.values())]: a [datetime] is always true. *)
Definition any_values (datum : CycleDatum) : bool :=
  is_some (green datum) || is_some (yellow datum) || is_some (red datum).

(** Body of [for mvmt, color_dict in mvmt_dict.items()]
    (lines 106-111). *)
Definition mvmt_body (rsu bound_ : string) (item : string * json)
  : M CycleDataType unit :=
  let '(mvmt, color_dict) := item in
  datum <- lift (make_datum color_dict) ;;
  if any_values datum then
    rsu_id_ <- lift (int_of_str rsu) ;;
    (fun data =>
       let loc := {| rsu_id := rsu_id_; bound := bound_; movement := mvmt |}
       in
       let data := vivify [] loc data in
       (dict_set loc (lookup [] data loc ++ [datum]) data, Ok tt))
  else ret tt.

Definition make_cycle_data (cycle_msg : Message) : result CycleDataType :=
  if status_failed cycle_msg then Ok []
  else
    returned
      ((body <- lift (match msg_get cycle_msg "body" with
                      | Some b => Ok b
                      | None => Raise KeyError
                      end) ;;
        rsus <- lift (items_of body) ;;
        for_each rsus (fun '(rsu, bound_dict) =>
          bounds <- lift (items_of bound_dict) ;;
          for_each bounds (fun '(bound_, mvmt_dict) =>
            mvmts <- lift (items_of mvmt_dict) ;;
            for_each mvmts (mvmt_body rsu bound_))))
         []).

(** [tyme + timedelta(seconds=float(trigger))] (line 129) *)
Definition event_time (tyme : datetime) (trigger : string)
  : result datetime :=
  match float_of_str trigger with
  | Raise e => Raise e
  | Ok secs =>
      match timedelta_seconds secs with
      | Raise e => Raise e
      | Ok delta => datetime_add tyme delta
      end
  end.

(** Body of [for trigger in trigger_dict['trigger_time'].split(',')]
    (lines 127-130).  The target list is looked up, and so inserted,
    before the argument of [append] is evaluated. *)
Definition trigger_body (tyme : datetime) (rsu bound_ mvmt : string)
  (trigger : string) : M ControllerEventsType unit :=
  if negb (String.eqb trigger EmptyString) then
    rsu_id_ <- lift (int_of_str rsu) ;;
    (fun events =>
       let loc := {| rsu_id := rsu_id_; bound := bound_; movement := mvmt |}
       in
       let events := vivify [] loc events in
       match event_time tyme trigger with
       | Raise e => (events, Raise e)
       | Ok event =>
           (dict_set loc (lookup [] events loc ++ [event]) events, Ok tt)
       end)
  else ret tt.

(** [trigger_dict['trigger_time'].split(',')] *)
Definition triggers_of (trigger_dict : json) : result (list string) :=
  match subscript trigger_dict "trigger_time" with
  | Raise e => Raise e
  | Ok (JStr s) => Ok (split_commas s)
  | Ok _ => Raise AttributeError
  end.

Definition get_controller_events (traffic_msg : Message) (tyme : datetime)
  : result ControllerEventsType :=
  if status_failed traffic_msg then Ok []
  else
    returned
      ((body <- lift (match msg_get traffic_msg "body" with
                      | Some b => Ok b
                      | None => Raise KeyError
                      end) ;;
        rsus <- lift (items_of body) ;;
        for_each rsus (fun '(rsu, bound_mvmt_triggers) =>
          bounds <- lift (items_of bound_mvmt_triggers) ;;
          for_each bounds (fun '(bound_, mvmt_triggers) =>
            mvmts <- lift (items_of mvmt_triggers) ;;
            for_each mvmts (fun '(mvmt, trigger_dict) =>
              triggers <- lift (triggers_of trigger_dict) ;;
              for_each triggers (trigger_body tyme rsu bound_ mvmt)))))
         []).

End Parsers.

(* ================================================================= *)
(** ** The polling loop's two histories *)

(** The state [main] keeps across polls. *)
Record Histories := {
  cycle_history : StoredCyclePointsType;
  event_history : StoredEventsType
}.

Definition empty_histories : Histories :=
  {| cycle_history := []; event_history := [] |}.

(** One call of either update function on the histories. *)
Inductive Call :=
| UpdateCyclePoints (all_cycle_data : CycleDataType)
| UpdateEvents (all_new_events : ControllerEventsType).

Definition call_body (c : Call) : M Histories unit :=
  fun h =>
    match c with
    | UpdateCyclePoints d =>
        let '(s, r) := update_stored_cycle_points d (cycle_history h) in
        ({| cycle_history := s; event_history := event_history h |}, r)
    | UpdateEvents e =>
        ({| cycle_history := cycle_history h;
            event_history := update_stored_events e (event_history h) |},
         Ok tt)
    end.

(** A sequence of calls; an exception ends it, as nothing in [main]
    catches one. *)
Definition run_calls (calls : list Call) : M Histories unit :=
  for_each calls call_body.

(** What a list looks like once room has been made for one more entry. *)
Definition evict3 {A} (l : list A) : list A :=
  if (length l =? 3)%nat then tl l else l.

(* ================================================================= *)
(** ** Example data *)

Definition at_epoch (z : Z) : datetime := {| since_epoch := inject_Z z |}.

Definition pt (a b : Z) : Point := {| x := inject_Z a; y := inject_Z b |}.

Definition loc1 : Location :=
  {| rsu_id := 1; bound := "NB"; movement := "T" |}.

(** A cycle record with no color observed, and the same with one set. *)
Definition no_colors : CycleDatum := all_colors None.

Definition observed (c : TLColor) (z : Z) (d : CycleDatum) : CycleDatum :=
  set_color c (Some (at_epoch z)) d.

(* ================================================================= *)
(** ** Vocabulary of the properties *)

Definition cycle_bounded (s : StoredCyclePointsType) : Prop :=
  forall loc c, (length (points_of s loc c) <= 3)%nat.

Definition events_bounded (s : StoredEventsType) : Prop :=
  forall loc, (length (batches_of s loc) <= 3)%nat.

(** The point a pass appends, when it appends one: it starts at the
    timestamp the record reports for the color, or it is the last stored
    point of the color when the record reports none. *)
Definition appended_as (datum : CycleDatum) (c : TLColor) (old : list Point)
  (p : Point) : Prop :=
  match at_color datum c with
  | Some tyme => x p = timestamp tyme
  | None => index_from_end old 1 = Some p
  end.

(** [color_body] reads and writes the store at [loc] only; this is the
    same loop body on the three lists of that location. *)
Definition ListsLoopState : Type :=
  ByColor (list Point) * ByColor (option Point).

Definition color_lists_body (datum : CycleDatum) (color : TLColor)
  : M ListsLoopState unit :=
  fun '(lists, curr) =>
    let prev_point := index_from_end (at_color lists color) 1 in
    let prev_red_point := index_from_end (at_color lists RED) 1 in
    match derive_point color (at_color datum color) prev_point
            prev_red_point curr with
    | Raise e => ((lists, curr), Raise e)
    | Ok None => ((lists, curr), Ok tt)
    | Ok (Some p) =>
        ((set_color color (append_capped (at_color lists color) p) lists,
          set_color color (Some p) curr), Ok tt)
    end.

Definition datum_lists (datum : CycleDatum) : M (ByColor (list Point)) unit :=
  fun lists =>
    let '((lists', _), r) :=
      for_each TLColor_members (color_lists_body datum)
        (lists, all_colors None) in
    (lists', r).

(** The store and the lists of [loc] agree. *)
Definition at_loc (loc : Location) (st : ColorLoopState)
  (lt : ListsLoopState) : Prop :=
  lookup no_points (fst st) loc = fst lt /\ snd st = snd lt.

(** The one exception a cycle record can raise. *)
Definition green_needs_red (datum : CycleDatum) (lists : ByColor (list Point))
  : bool :=
  match at_color datum GREEN,
        index_from_end (at_color lists GREEN) 1,
        index_from_end (at_color lists RED) 1 with
  | Some _, Some _, None => true
  | _, _, _ => false
  end.

(** The rows one list of points contributes: its last two points, when
    it has two. *)
Definition last_two_rows (loc : Location) (points : list Point) : list Row :=
  match rev points with
  | p1 :: p2 :: _ =>
      [Data (rsu_id loc) (bound loc) (movement loc) (x p2) (y p2);
       Data (rsu_id loc) (bound loc) (movement loc) (x p1) (y p1)]
  | _ => []
  end.

(** What [diff] holds once the points [seen] have been looked at:
    infinity when none of them starts at or before the event, and
    otherwise the distance to one that does and that no other such point
    follows. *)
Definition closest_red_spec (event : float) (seen : list Point)
  (diff : float_inf) : Prop :=
  match diff with
  | None => forall p, In p seen -> ~ x p <= event
  | Some d =>
      exists p, In p seen /\ x p <= event /\
                (forall q, In q seen -> x q <= event -> x q <= x p) /\
                d = fsub event (x p)
  end.

(** The row an event contributes. *)
Definition matched_row (loc : Location) (reds : list Point) (event : float)
  : list Row :=
  match closest_red event reds with
  | Some diff => [Data (rsu_id loc) (bound loc) (movement loc) event diff]
  | None => []
  end.

(** The rows a location contributes: none unless three batches and three
    RED points are held, and otherwise those of the events of the oldest
    batch, in ascending order. *)
Definition correlated_rows (loc : Location) (all_events : list (list float))
  (reds : list Point) : list Row :=
  if (length all_events <? 3)%nat || (length reds <? 3)%nat then []
  else flat_map (matched_row loc reds) (sorted (hd [] all_events)).

(** [x] strictly increasing along the list. *)
Fixpoint increasing_x (l : list Point) : bool :=
  match l with
  | a :: (b :: _) as l' => flt (x a) (x b) && increasing_x l'
  | _ => true
  end.

Fixpoint ascending (l : list float) : bool :=
  match l with
  | a :: (b :: _) as l' => fle a b && ascending l'
  | _ => true
  end.

(** [x] never decreasing along the list. *)
Definition nondecreasing_x (l : list Point) : bool := ascending (map x l).

(** The timestamps a list of cycle records reports for a color, in
    order. *)
Fixpoint reported (c : TLColor) (data : list CycleDatum) : list float :=
  match data with
  | [] => []
  | datum :: data' =>
      match at_color datum c with
      | Some tyme => timestamp tyme :: reported c data'
      | None => reported c data'
      end
  end.

(** The lists of [loc], followed by what is still to be processed for
    it, are in order. *)
Definition in_order_at (s : StoredCyclePointsType) (loc : Location)
  (data : list CycleDatum) : Prop :=
  forall c, StronglySorted Qle (map x (points_of s loc c) ++ reported c data).




(* ================================================================= *)
(** ** Scenarios *)

(** Two polls of one location: GREEN at 100, then GREEN at 130. *)
Definition green_then_green : list Call :=
  [UpdateCyclePoints [(loc1, [observed GREEN 100 no_colors])];
   UpdateCyclePoints [(loc1, [observed GREEN 130 no_colors])]].

(** Three polls of one location in which YELLOW is never stored: RED is
    bootstrapped at 95, GREEN and RED chain to (98, 3) and (100, 5), and
    the third record reports GREEN at 130 and YELLOW at 135. *)
Definition red_100_5_polls : list Call :=
  [UpdateCyclePoints
     [(loc1, [observed RED 95 (observed GREEN 90 no_colors)])];
   UpdateCyclePoints
     [(loc1, [observed RED 100 (observed GREEN 98 no_colors)])]].

Definition green_130_yellow_135 : CycleDatum :=
  observed YELLOW 135 (observed GREEN 130 no_colors).

(** GREEN at 100 and YELLOW at 105, then GREEN alone at 130. *)
Definition yellow_missing_after_green_yellow : list Call :=
  [UpdateCyclePoints
     [(loc1, [observed YELLOW 105 (observed GREEN 100 no_colors)])];
   UpdateCyclePoints [(loc1, [observed GREEN 130 no_colors])]].

(** GREEN at 100, then GREEN at 130 with the first RED at 160. *)
Definition first_red_after_green : list Call :=
  [UpdateCyclePoints [(loc1, [observed GREEN 100 no_colors])];
   UpdateCyclePoints
     [(loc1, [observed RED 160 (observed GREEN 130 no_colors)])]].

(** Poll 1 has GREEN at 100; poll 2 has RED at 160, with GREEN either
    not reported again or reported again at 100. *)
Definition green_100_then_red_160 : list Call :=
  [UpdateCyclePoints [(loc1, [observed GREEN 100 no_colors])];
   UpdateCyclePoints [(loc1, [observed RED 160 no_colors])]].

Definition green_100_then_green_100_red_160 : list Call :=
  [UpdateCyclePoints [(loc1, [observed GREEN 100 no_colors])];
   UpdateCyclePoints
     [(loc1, [observed RED 160 (observed GREEN 100 no_colors)])]].

(** RED points at 100, 160 and 220, and three batches of events of which
    the oldest holds 170 and 90. *)
Definition reds_100_160_220 : list Point := [pt 100 40; pt 160 40; pt 220 40].

Definition events_170_90 : StoredEventsType := [(loc1, [[170; 90]; []; []])].

(** Three GREEN points, one YELLOW point and no RED point. *)
Definition stored_three_greens : StoredCyclePointsType :=
  [(loc1, {| green := [pt 90 30; pt 98 3; pt 130 30];
             yellow := [pt 135 35]; red := [] |})].

Definition stored_90_95 : StoredCyclePointsType :=
  [(loc1, {| green := [pt 90 30]; yellow := []; red := [pt 95 35] |})].

Definition green_98_red_100 : CycleDataType :=
  [(loc1, [observed RED 100 (observed GREEN 98 no_colors)])].

(** A message with status 200 whose body holds one site, one approach
    and one movement. *)
Definition one_movement_msg (rsu bound_ mvmt : string) (entry : json)
  : Message :=
  [("statusCode", JNum 200);
   ("body", JObj [(rsu, JObj [(bound_, JObj [(mvmt, entry)])])])].

(** Parsers that know the strings of the example messages; each float
    is the binary64 value Python reads.  The float nearest to 2.5e-06
    lies above it, and its product with 10^6 rounds to the float 2.5. *)
Definition example_strptime (s : string) : result datetime :=
  if String.eqb s "1970-01-01 00:01:40.000000" then Ok (at_epoch 100)
  else if String.eqb s "1970-01-01 00:02:40.000000" then Ok (at_epoch 160)
  else Raise ValueError.

Definition example_float (s : string) : result float :=
  if String.eqb s "1.5" then Ok (3 # 2)
  else if String.eqb s "2" then Ok 2
  else if String.eqb s "1e30" then Ok 1000000000000000019884624838656
  else if String.eqb s "2.5e-06"
       then Ok (5902958103587057 # 2361183241434822606848)
  else Raise ValueError.

Definition example_int (s : string) : result Z :=
  if String.eqb s "7" then Ok 7%Z else Raise ValueError.

Definition loc7 : Location :=
  {| rsu_id := 7; bound := "NB"; movement := "T" |}.

Definition green_only_entry : json :=
  JObj [("green", JStr "1970-01-01 00:01:40.000000");
        ("yellow", JStr EmptyString); ("red", JNull)].


(* ================================================================= *)
(** ** get_time_to_minute and main *)

(** [tyme.microsecond]: the microseconds field, in 0..999999. *)
Definition microsecond (t : datetime) : Z :=
  Qfloor ((since_epoch t - inject_Z (Qfloor (since_epoch t))) * 1000000).

(** [timedelta(hours=h, seconds=s, microseconds=us)], in seconds. *)
Definition timedelta_hms (hours seconds microseconds : Z) : Q :=
  inject_Z (3600 * hours + seconds) + inject_Z microseconds / 1000000.

(** [tyme - delta] *)
Definition datetime_sub (tyme : datetime) (delta : Q) : datetime :=
  {| since_epoch := since_epoch tyme - delta |}.

(** [a == b] on datetimes. *)
Definition datetime_eqb (a b : datetime) : bool :=
  Qeq_bool (since_epoch a) (since_epoch b).

Definition HOUR_LAG : Z := 1.

(** [get_time_to_minute(hour_offset)], on the datetime [utcnow] that
    [datetime.utcnow()] returns. *)
Definition get_time_to_minute (hour_offset : Z) (utcnow : datetime)
  : datetime :=
  datetime_sub utcnow
    (timedelta_hms hour_offset (second utcnow) (microsecond utcnow)).

(** What the outside answers during one pass of the loop of [main]: the
    clock, and the decoded bodies of the two requests (which a pass that
    does not poll does not make). *)
Record Answers := {
  utcnow : datetime;
  cycle_message : Message;
  traffic_message : Message
}.

(** A request sent through [session]: the API it goes to and the time
    in its [timestamp] parameter, which the URL renders to the second. *)
Inductive Request :=
| CyclesRequest (tyme : datetime)
| TrafficRequest (tyme : datetime).

(** The variables of [main]; [session] is the list of the requests sent
    through it so far. *)
Record MainState := {
  main_tyme : datetime;
  main_prev_time : datetime;
  main_histories : Histories;
  main_files : Files;
  main_session : list Request
}.

(** The state before the loop (lines 295-303), for the first reading
    [now] of the clock and the files [fs] found on disk. *)
Definition main_start (now : datetime) (fs : Files) : MainState :=
  let start_time := get_time_to_minute HOUR_LAG now in
  {| main_tyme := start_time;
     main_prev_time := datetime_sub start_time 60;
     main_histories := empty_histories;
     main_files := fs;
     main_session := [] |}.

(** [session.get(url)]: the request leaves, whatever comes back. *)
Definition send (r : Request) (st : MainState) : MainState :=
  {| main_tyme := main_tyme st;
     main_prev_time := main_prev_time st;
     main_histories := main_histories st;
     main_files := main_files st;
     main_session := main_session st ++ [r] |}.

Section Main.

Variable strptime : string -> result datetime.
Variable float_of_str : string -> result float.
Variable int_of_str : string -> result Z.

(** Lines 311-327: get the data, update both histories, write the
    files, and read the clock.  Each message is asked for just before
    it is parsed. *)
Definition poll (a : Answers) : M MainState unit :=
  fun st =>
    let st := send (CyclesRequest (main_tyme st)) st in
    match make_cycle_data strptime int_of_str (cycle_message a) with
    | Raise e => (st, Raise e)
    | Ok cycle_data =>
        let st := send (TrafficRequest (main_tyme st)) st in
        match get_controller_events float_of_str int_of_str
                (traffic_message a) (main_tyme st) with
        | Raise e => (st, Raise e)
        | Ok events =>
            let h := main_histories st in
            let '(stored_cycle_points, r) :=
              update_stored_cycle_points cycle_data (cycle_history h) in
            match r with
            | Raise e =>
                ({| main_tyme := main_tyme st;
                    main_prev_time := main_prev_time st;
                    main_histories :=
                      {| cycle_history := stored_cycle_points;
                         event_history := event_history h |};
                    main_files := main_files st;
                    main_session := main_session st |}, Raise e)
            | Ok _ =>
                let stored_events :=
                  update_stored_events events (event_history h) in
                let fs := write_cycle_data stored_cycle_points (main_files st)
                in
                let '(fs, stored_cycle_points) :=
                  write_events stored_events stored_cycle_points fs in
                ({| main_tyme := get_time_to_minute HOUR_LAG (utcnow a);
                    main_prev_time := main_tyme st;
                    main_histories :=
                      {| cycle_history := stored_cycle_points;
                         event_history := stored_events |};
                    main_files := fs;
                    main_session := main_session st |}, Ok tt)
            end
        end
    end.

(** One pass of [while True] (lines 306-327).  Ctrl-C is not modelled. *)
Definition iteration (a : Answers) : M MainState unit :=
  fun st =>
    if datetime_eqb (main_tyme st) (main_prev_time st)
    then ({| main_tyme := get_time_to_minute HOUR_LAG (utcnow a);
             main_prev_time := main_prev_time st;
             main_histories := main_histories st;
             main_files := main_files st;
             main_session := main_session st |}, Ok tt)
    else poll a st.

(** [main], for as many passes as there are answers. *)
Definition main_loop (now : datetime) (fs : Files) (answers : list Answers)
  : MainState * result unit :=
  for_each answers iteration (main_start now fs).

End Main.

(* ================================================================= *)
(** ** Further vocabulary and scenarios *)

(** The start of the minute of [q], [hour_offset] hours back, in
    seconds. *)
Definition minute_start (hour_offset : Z) (q : Q) : Z :=
  (60 * (Qfloor q / 60) - 3600 * hour_offset)%Z.

(** The times for which the cycles API, and the traffic API, have been
    asked, in order. *)
Definition cycles_asked (session : list Request) : list datetime :=
  flat_map (fun r => match r with
                     | CyclesRequest tyme => [tyme]
                     | TrafficRequest _ => []
                     end) session.

Definition traffic_asked (session : list Request) : list datetime :=
  flat_map (fun r => match r with
                     | CyclesRequest _ => []
                     | TrafficRequest tyme => [tyme]
                     end) session.

(** No two times in a row are equal. *)
Fixpoint no_repeat (l : list datetime) : bool :=
  match l with
  | a :: (b :: _) as l' => negb (datetime_eqb a b) && no_repeat l'
  | _ => true
  end.

(** The datetime has no fraction of a microsecond. *)
Definition whole_microseconds (t : datetime) : Prop :=
  exists m : Z, since_epoch t == inject_Z m / 1000000.

Definition histories_in_bounds (st : MainState) : Prop :=
  cycle_bounded (cycle_history (main_histories st)) /\
  events_bounded (event_history (main_histories st)).

(** [tyme] is the start of the minute of the last reading [cur] of the
    clock, an hour back, and the last poll was not after it. *)
Definition on_the_minute (st : MainState) (cur : Q) : Prop :=
  since_epoch (main_tyme st) == inject_Z (minute_start HOUR_LAG cur) /\
  since_epoch (main_prev_time st) <= since_epoch (main_tyme st).

(** A clock read at 01:02:05, and three passes answered without data at
    01:02:10, 01:03:10 and 01:03:15. *)
Definition no_data_at (z : Z) : Answers :=
  {| utcnow := at_epoch z; cycle_message := []; traffic_message := [] |}.

Definition three_passes : list Answers :=
  [no_data_at 3730; no_data_at 3790; no_data_at 3795].

Definition no_files : Files := {| lines := all_colors []; dots := [] |}.

Definition polling_state : MainState :=
  {| main_tyme := at_epoch 120;
     main_prev_time := at_epoch 60;
     main_histories :=
       {| cycle_history :=
            [(loc1, {| green := [pt 90 30; pt 98 3]; yellow := [];
                       red := [pt 95 35; pt 100 5] |})];
          event_history := [(loc1, [[170; 90]])] |};
     main_files := no_files;
     main_session := [] |}.

Definition stored_at_two_locations : StoredCyclePointsType :=
  [(loc1, {| green := [pt 90 30]; yellow := []; red := [pt 95 35] |});
   (loc7, {| green := [pt 91 31]; yellow := []; red := [] |})].

Definition stored_three_colors : StoredCyclePointsType :=
  [(loc1, {| green := [pt 98 3]; yellow := [pt 99 4];
             red := [pt 95 35; pt 100 5] |})].

(** A data row of the events file: the site, approach and movement of
    a location, an event [e] of the oldest batch of that location, and
    the time [d = e - x p] from a RED point [p] of that location that
    starts at or before [e]. *)
Definition event_data_row (stored_events : StoredEventsType)
  (s : StoredCyclePointsType) (row : Row) : Prop :=
  exists loc batch rest e p d,
    In (loc, batch :: rest) stored_events /\
    In e batch /\
    In p (points_of s loc RED) /\
    x p <= e /\
    d == e - x p /\
    0 <= d /\
    row = Data (rsu_id loc) (bound loc) (movement loc) e d.

(** A computation keeps a property of the state when it returns. *)
Definition preserves_ok {S A} (P : S -> Prop) (m : M S A) : Prop :=
  forall s, P s -> forall a, snd (m s) = Ok a -> P (fst (m s)).

(** A dictionary of lists as the parsers build them: each key once, and
    no key with an empty list. *)
Definition well_keyed {V} (d : dict (list V)) : Prop :=
  NoDup (map fst d) /\ forall k l, In (k, l) d -> l <> [].

Definition two_triggers_msg : Message :=
  one_movement_msg "7" "NB" "T" (JObj [("trigger_time", JStr "1.5,,2,")]).

Definition two_triggers_events : ControllerEventsType :=
  [(loc7, [{| since_epoch := 2003 # 2 |}; at_epoch 1002])].

(** The body of a cycles message is well formed: it and every site and
    approach in it are objects, the three timestamps of every movement
    parse, and the site of every movement that has a timestamp is an
    integer. *)
Definition cycle_body_well_formed (strptime : string -> result datetime)
  (int_of_str : string -> result Z) (cycle_msg : Message) : Prop :=
  exists rsus,
    msg_get cycle_msg "body" = Some (JObj rsus) /\
    forall rsu bound_dict,
      In (rsu, bound_dict) rsus ->
      exists bounds,
        bound_dict = JObj bounds /\
        forall bound_ mvmt_dict,
          In (bound_, mvmt_dict) bounds ->
          exists mvmts,
            mvmt_dict = JObj mvmts /\
            forall mvmt color_dict,
              In (mvmt, color_dict) mvmts ->
              exists datum,
                make_datum strptime color_dict = Ok datum /\
                (any_values datum = true ->
                 exists rsu_id_, int_of_str rsu = Ok rsu_id_).

(** The body of a traffic message is well formed: every level is an
    object, every movement has a string under [trigger_time], and for
    every entry of that string that is not empty the site is an integer
    and the entry is a number. *)
Definition traffic_body_well_formed (float_of_str : string -> result float)
  (int_of_str : string -> result Z) (traffic_msg : Message) : Prop :=
  exists rsus,
    msg_get traffic_msg "body" = Some (JObj rsus) /\
    forall rsu bound_dict,
      In (rsu, bound_dict) rsus ->
      exists bounds,
        bound_dict = JObj bounds /\
        forall bound_ mvmt_dict,
          In (bound_, mvmt_dict) bounds ->
          exists mvmts,
            mvmt_dict = JObj mvmts /\
            forall mvmt trigger_dict,
              In (mvmt, trigger_dict) mvmts ->
              exists str,
                subscript trigger_dict "trigger_time" = Ok (JStr str) /\
                forall trigger,
                  In trigger (split_commas str) ->
                  trigger <> EmptyString ->
                  (exists rsu_id_, int_of_str rsu = Ok rsu_id_) /\
                  (exists secs, float_of_str trigger = Ok secs).

(* ================================================================= *)
(** * Properties *)

(** ** Dictionaries *)

Lemma Location_eqb_eq (a b : Location) : Location_eqb a b = true <-> a = b.
Proof.
  unfold Location_eqb. destruct a as [r1 b1 m1], b as [r2 b2 m2]; simpl.
  rewrite !andb_true_iff, Z.eqb_eq, !String.eqb_eq.
  split.
  - intros [[-> ->] ->]. reflexivity.
  - intros H. injection H as -> -> ->. auto.
Qed.

Lemma Location_eqb_refl (a : Location) : Location_eqb a a = true.
Proof. apply Location_eqb_eq. reflexivity. Qed.

Lemma Location_eqb_sym (a b : Location) :
  Location_eqb a b = Location_eqb b a.
Proof.
  destruct (Location_eqb a b) eqn:E, (Location_eqb b a) eqn:E';
    try reflexivity.
  - apply Location_eqb_eq in E. subst b.
    rewrite Location_eqb_refl in E'. discriminate.
  - apply Location_eqb_eq in E'. subst b.
    rewrite Location_eqb_refl in E. discriminate.
Qed.

Lemma dict_get_set {V} (k k' : Location) (v : V) (d : dict V) :
  dict_get (dict_set k v d) k' =
  if Location_eqb k k' then Some v else dict_get d k'.
Proof.
  induction d as [|[k0 v0] d IH]; simpl.
  - reflexivity.
  - destruct (Location_eqb k0 k) eqn:E0; simpl.
    + apply Location_eqb_eq in E0. subst k0.
      destruct (Location_eqb k k'); reflexivity.
    + rewrite IH. destruct (Location_eqb k0 k') eqn:E1; [|reflexivity].
      apply Location_eqb_eq in E1. subst k0.
      rewrite Location_eqb_sym, E0. reflexivity.
Qed.

Lemma lookup_set {V} (dflt : V) (k k' : Location) (v : V) (d : dict V) :
  lookup dflt (dict_set k v d) k' =
  if Location_eqb k k' then v else lookup dflt d k'.
Proof.
  unfold lookup. rewrite dict_get_set.
  destruct (Location_eqb k k'); reflexivity.
Qed.

Lemma lookup_vivify {V} (dflt : V) (k k' : Location) (d : dict V) :
  lookup dflt (vivify dflt k d) k' = lookup dflt d k'.
Proof.
  unfold vivify. destruct (dict_get d k) eqn:E; [reflexivity|].
  rewrite lookup_set. destruct (Location_eqb k k') eqn:E'; [|reflexivity].
  apply Location_eqb_eq in E'. subst k'. unfold lookup. rewrite E.
  reflexivity.
Qed.

Lemma at_set_color {A} (c c' : TLColor) (v : A) (d : ByColor A) :
  at_color (set_color c v d) c' =
  match c, c' with
  | GREEN, GREEN | YELLOW, YELLOW | RED, RED => v
  | _, _ => at_color d c'
  end.
Proof. destruct c, c'; reflexivity. Qed.

Lemma at_set_color_same {A} (c : TLColor) (v : A) (d : ByColor A) :
  at_color (set_color c v d) c = v.
Proof. destruct c; reflexivity. Qed.

Lemma at_set_color_other {A} (c c' : TLColor) (v : A) (d : ByColor A) :
  c <> c' -> at_color (set_color c v d) c' = at_color d c'.
Proof. destruct c, c'; intros H; try reflexivity; congruence. Qed.

(** ** Loops *)

Lemma for_each_preserves {S A} (P : S -> Prop) (body : A -> M S unit)
  (l : list A) :
  (forall a s, In a l -> P s -> P (fst (body a s))) ->
  forall s, P s -> P (fst (for_each l body s)).
Proof.
  induction l as [|a l IH]; intros Hb s Hs; simpl.
  - exact Hs.
  - unfold bind. specialize (Hb a s (or_introl eq_refl) Hs) as H1.
    destruct (body a s) as [s1 [[]|e]]; simpl in *.
    + apply IH; [|exact H1]. intros; apply Hb; auto.
    + exact H1.
Qed.


(** ** The bound on both histories *)

Lemma append_capped_evict (l : list Point) (p : Point) :
  append_capped l p = evict3 l ++ [p].
Proof.
  unfold append_capped, evict3. rewrite length_app. simpl.
  destruct l as [|a l]; simpl; [reflexivity|].
  replace (length l + 1)%nat with (S (length l)) by lia.
  simpl. destruct (length l =? 2)%nat eqn:E.
  - reflexivity.
  - reflexivity.
Qed.

Lemma evict3_length {A} (l : list A) :
  (length l <= 3 -> length (evict3 l) <= 2)%nat.
Proof.
  unfold evict3. destruct (length l =? 3)%nat eqn:E.
  - apply Nat.eqb_eq in E. destruct l; simpl in *; lia.
  - apply Nat.eqb_neq in E. lia.
Qed.

Lemma append_capped_length (l : list Point) (p : Point) :
  (length l <= 3 -> length (append_capped l p) <= 3)%nat.
Proof.
  intros H. rewrite append_capped_evict, length_app. simpl.
  apply evict3_length in H. lia.
Qed.

Lemma derive_point_appended color tyme prev prev_red curr p :
  derive_point color tyme prev prev_red curr = Ok (Some p) ->
  match tyme with
  | Some t => x p = timestamp t
  | None => prev = Some p
  end.
Proof.
  unfold derive_point.
  destruct tyme as [t|], prev as [q|]; try (intros [= <-]; reflexivity);
    try discriminate.
  destruct color.
  - destruct prev_red; [intros [= <-]; reflexivity | discriminate].
  - destruct (at_color curr GREEN); intros [= <-]; reflexivity.
  - destruct (at_color curr YELLOW); [intros [= <-]; reflexivity|].
    destruct (at_color curr GREEN); intros [= <-]; reflexivity.
Qed.

(** What one pass of the color loop does to the list of one color at one
    location: nothing, or one capped append. *)
Lemma color_body_points loc datum color s curr loc' c :
  let s' := fst (fst (color_body loc datum color (s, curr))) in
  points_of s' loc' c = points_of s loc' c \/
  (loc' = loc /\ c = color /\
   exists p, points_of s' loc' c = evict3 (points_of s loc' c) ++ [p] /\
             appended_as datum c (points_of s loc' c) p).
Proof.
  simpl. unfold color_body.
  destruct (derive_point _ _ _ _ _) as [[p|]|e] eqn:D; simpl;
    unfold points_of; try (left; rewrite lookup_vivify; reflexivity).
  rewrite lookup_set.
  destruct (Location_eqb loc loc') eqn:E.
  - apply Location_eqb_eq in E. subst loc'.
    rewrite !lookup_vivify.
    apply derive_point_appended in D. rewrite lookup_vivify in D.
    destruct color, c; simpl; try (left; reflexivity);
      right; repeat split; exists p;
      (split; [apply append_capped_evict | exact D]).
  - left. rewrite lookup_vivify. reflexivity.
Qed.

Lemma color_body_bounded loc datum color s curr :
  cycle_bounded s ->
  cycle_bounded (fst (fst (color_body loc datum color (s, curr)))).
Proof.
  intros H loc' c.
  destruct (color_body_points loc datum color s curr loc' c)
    as [-> | (_ & _ & p & -> & _)].
  - apply H.
  - rewrite length_app. simpl. specialize (H loc' c).
    apply evict3_length in H. lia.
Qed.

Lemma datum_body_bounded loc datum s :
  cycle_bounded s -> cycle_bounded (fst (datum_body loc datum s)).
Proof.
  intros H. unfold datum_body.
  pose proof (@for_each_preserves ColorLoopState TLColor
                (fun st => cycle_bounded (fst st))
                (color_body loc datum) TLColor_members) as HP.
  destruct (for_each TLColor_members (color_body loc datum)
              (s, all_colors None)) as [[s' curr'] r] eqn:E.
  simpl.
  specialize (HP ltac:(intros a [s0 c0] _ H0;
                       apply color_body_bounded; exact H0)
                      (s, all_colors None) H).
  rewrite E in HP. exact HP.
Qed.

Lemma update_stored_cycle_points_bounded d s :
  cycle_bounded s -> cycle_bounded (fst (update_stored_cycle_points d s)).
Proof.
  unfold update_stored_cycle_points.
  apply for_each_preserves with (P := cycle_bounded).
  intros [loc data] s0 _ H0.
  apply for_each_preserves with (P := cycle_bounded); [|exact H0].
  intros datum s1 _ H1. apply datum_body_bounded. exact H1.
Qed.

Lemma events_body_batches s loc events loc' :
  batches_of (events_body s (loc, events)) loc' =
  if Location_eqb loc loc'
  then evict3 (batches_of s loc) ++ [map timestamp events]
  else batches_of s loc'.
Proof.
  unfold events_body, batches_of. rewrite lookup_set, !lookup_vivify.
  reflexivity.
Qed.

Lemma events_body_bounded s item :
  events_bounded s -> events_bounded (events_body s item).
Proof.
  intros H loc'. destruct item as [loc events].
  rewrite events_body_batches. destruct (Location_eqb loc loc').
  - rewrite length_app. simpl. specialize (H loc).
    apply evict3_length in H. lia.
  - apply H.
Qed.

Lemma update_stored_events_bounded e s :
  events_bounded s -> events_bounded (update_stored_events e s).
Proof.
  unfold update_stored_events. revert s.
  induction e as [|item e IH]; intros s H; simpl.
  - exact H.
  - apply IH, events_body_bounded, H.
Qed.


(** One cycle record changes the list of a color at most once, by one
    capped append. *)
Lemma colors_loop_points loc datum loc' c (l : list TLColor) :
  NoDup l ->
  forall s curr,
    let s' := fst (fst (for_each l (color_body loc datum) (s, curr))) in
    points_of s' loc' c = points_of s loc' c \/
    (In c l /\ loc' = loc /\
     exists p, points_of s' loc' c = evict3 (points_of s loc' c) ++ [p] /\
               appended_as datum c (points_of s loc' c) p).
Proof.
  induction 1 as [|a l Ha Hl IH]; intros s curr; simpl.
  - left. reflexivity.
  - unfold bind.
    pose proof (color_body_points loc datum a s curr loc' c) as H1.
    destruct (color_body loc datum a (s, curr)) as [[s1 curr1] [[]|e]];
      simpl in H1.
    + specialize (IH s1 curr1). simpl in IH.
      destruct IH as [IH | (Hin & Hloc & p & IH & Hp)].
      * rewrite IH. destruct H1 as [H1 | (Hloc & Hc & p & H1 & Hp)].
        -- left. exact H1.
        -- right. repeat split; auto. exists p. auto.
      * destruct H1 as [H1 | (_ & Hc & _)].
        -- right. repeat split; auto. exists p. rewrite IH, <- H1. auto.
        -- subst a. contradiction.
    + simpl. destruct H1 as [H1 | (Hloc & Hc & p & H1 & Hp)].
      * left. exact H1.
      * right. repeat split; auto. exists p. auto.
Qed.

Lemma TLColor_members_NoDup : NoDup TLColor_members.
Proof.
  unfold TLColor_members.
  repeat constructor; simpl; intuition discriminate.
Qed.

Lemma datum_body_points loc datum s loc' c :
  let s' := fst (datum_body loc datum s) in
  points_of s' loc' c = points_of s loc' c \/
  (loc' = loc /\
   exists p, points_of s' loc' c = evict3 (points_of s loc' c) ++ [p] /\
             appended_as datum c (points_of s loc' c) p).
Proof.
  simpl. unfold datum_body.
  pose proof (colors_loop_points loc datum loc' c _ TLColor_members_NoDup
                s (all_colors None)) as H.
  destruct (for_each TLColor_members (color_body loc datum)
              (s, all_colors None)) as [[s' curr'] r].
  simpl in *. destruct H as [H | (_ & Hl & p & H)]; eauto.
Qed.


(* ================================================================= *)
(** ** One cycle record, seen from the lists of its location *)

Lemma for_each_sim {S T A} (R : S -> T -> Prop)
  (f : A -> M S unit) (g : A -> M T unit) (l : list A) :
  (forall a s t, R s t ->
                 R (fst (f a s)) (fst (g a t)) /\ snd (f a s) = snd (g a t)) ->
  forall s t, R s t ->
              R (fst (for_each l f s)) (fst (for_each l g t)) /\
              snd (for_each l f s) = snd (for_each l g t).
Proof.
  intros Hstep. induction l as [|a l IH]; intros s t HR; simpl.
  - split; [exact HR | reflexivity].
  - unfold bind. destruct (Hstep a s t HR) as [H1 H2].
    destruct (f a s) as [s1 r1], (g a t) as [t1 r2]. simpl in *.
    subst r2. destruct r1 as [[]|e]; simpl.
    + apply IH, H1.
    + split; [exact H1 | reflexivity].
Qed.

Lemma color_body_sim loc datum color st lt :
  at_loc loc st lt ->
  at_loc loc (fst (color_body loc datum color st))
    (fst (color_lists_body datum color lt)) /\
  snd (color_body loc datum color st) = snd (color_lists_body datum color lt).
Proof.
  destruct st as [s curr], lt as [lists curr']. unfold at_loc. simpl.
  intros [Hl Hc]. subst curr'. rewrite lookup_vivify, Hl.
  destruct (derive_point _ _ _ _ _) as [[p|]|e]; simpl;
    rewrite ?lookup_set, ?Location_eqb_refl, ?lookup_vivify; auto.
Qed.

Lemma datum_body_sim loc datum s :
  lookup no_points (fst (datum_body loc datum s)) loc =
  fst (datum_lists datum (lookup no_points s loc)) /\
  snd (datum_body loc datum s) =
  snd (datum_lists datum (lookup no_points s loc)).
Proof.
  unfold datum_body, datum_lists.
  pose proof (@for_each_sim _ _ _ (at_loc loc)
                (color_body loc datum) (color_lists_body datum)
                TLColor_members
                (fun a st lt H => color_body_sim loc datum a st lt H)
                (s, all_colors None)
                (lookup no_points s loc, all_colors None)
                (conj eq_refl eq_refl)) as [[H1 _] H2].
  destruct (for_each TLColor_members (color_body loc datum) _)
    as [[s' c1] r1].
  destruct (for_each TLColor_members (color_lists_body datum) _)
    as [[l' c2] r2].
  simpl in *. auto.
Qed.

Lemma index_from_end_last {A} (l : list A) (a : A) :
  index_from_end (l ++ [a]) 1 = Some a.
Proof.
  unfold index_from_end. rewrite length_app. cbn [length].
  replace (length l + 1)%nat with (S (length l)) by lia.
  cbn [Nat.leb andb Nat.sub]. rewrite Nat.sub_0_r.
  rewrite nth_error_app2 by lia. rewrite Nat.sub_diag. reflexivity.
Qed.

Lemma index_from_end_nil {A} (k : nat) : index_from_end (@nil A) k = None.
Proof.
  unfold index_from_end. destruct k as [|k]; simpl; [reflexivity|].
  reflexivity.
Qed.

Lemma update_one_record loc datum s :
  update_stored_cycle_points [(loc, [datum])] s = datum_body loc datum s.
Proof.
  unfold update_stored_cycle_points. simpl. unfold bind, ret.
  destruct (datum_body loc datum s) as [s' [[]|e]]; reflexivity.
Qed.

(** The loop over the three colors, written out. *)
Lemma datum_lists_unfold datum lists :
  datum_lists datum lists =
  match color_lists_body datum GREEN (lists, all_colors None) with
  | (st1, Raise e) => (fst st1, Raise e)
  | (st1, Ok _) =>
      match color_lists_body datum YELLOW st1 with
      | (st2, Raise e) => (fst st2, Raise e)
      | (st2, Ok _) =>
          match color_lists_body datum RED st2 with
          | (st3, r) => (fst st3, r)
          end
      end
  end.
Proof.
  unfold datum_lists, TLColor_members. cbn [for_each]. unfold bind, ret.
  destruct (color_lists_body datum GREEN _) as [[l1 c1] [[]|e1]];
    [|reflexivity].
  destruct (color_lists_body datum YELLOW _) as [[l2 c2] [[]|e2]];
    [|reflexivity].
  destruct (color_lists_body datum RED _) as [[l3 c3] [[]|e3]]; reflexivity.
Qed.

Lemma color_lists_body_other datum c st c' :
  c <> c' ->
  at_color (fst (fst (color_lists_body datum c st))) c' = at_color (fst st) c'.
Proof.
  intros Hc. destruct st as [lists curr]. unfold color_lists_body.
  destruct (derive_point _ _ _ _ _) as [[p|]|e]; simpl; try reflexivity.
  apply at_set_color_other, Hc.
Qed.

Lemma color_lists_body_absent datum c lists curr :
  at_color datum c = None ->
  color_lists_body datum c (lists, curr) =
  (match index_from_end (at_color lists c) 1 with
   | Some prev =>
       (set_color c (evict3 (at_color lists c) ++ [prev]) lists,
        set_color c (Some prev) curr)
   | None => (lists, curr)
   end, Ok tt).
Proof.
  intros Hd. unfold color_lists_body. rewrite Hd. simpl.
  destruct (index_from_end (at_color lists c) 1); simpl;
    rewrite ?append_capped_evict; reflexivity.
Qed.

Lemma color_lists_body_first datum c lists curr tyme :
  at_color datum c = Some tyme ->
  at_color lists c = [] ->
  color_lists_body datum c (lists, curr) =
  ((set_color c [seconds_point tyme] lists,
    set_color c (Some (seconds_point tyme)) curr), Ok tt).
Proof.
  intros Hd Hl. unfold color_lists_body. rewrite Hd, Hl. reflexivity.
Qed.

(** What the record does to [c], given what the pass for [c] does to the
    state it starts from: the other two passes leave [c] alone. *)
Lemma datum_lists_at datum lists c (R : list Point -> list Point -> Prop) :
  (forall l curr,
      R (at_color l c)
        (at_color (fst (fst (color_lists_body datum c (l, curr)))) c)) ->
  snd (datum_lists datum lists) = Ok tt ->
  R (at_color lists c) (at_color (fst (datum_lists datum lists)) c).
Proof.
  intros Hf. rewrite datum_lists_unfold.
  destruct c;
    pose proof (color_lists_body_other datum GREEN (lists, all_colors None))
      as F1;
    pose proof (Hf lists (all_colors None)) as S1;
    destruct (color_lists_body datum GREEN (lists, all_colors None))
      as [[l1 c1] [[]|e1]]; try discriminate;
    pose proof (color_lists_body_other datum YELLOW (l1, c1)) as F2;
    pose proof (Hf l1 c1) as S2;
    destruct (color_lists_body datum YELLOW (l1, c1))
      as [[l2 c2] [[]|e2]]; try discriminate;
    pose proof (color_lists_body_other datum RED (l2, c2)) as F3;
    pose proof (Hf l2 c2) as S3;
    destruct (color_lists_body datum RED (l2, c2)) as [[l3 c3] r3];
    cbn [fst snd] in *; intros _.
  - rewrite F3, F2 by discriminate. exact S1.
  - rewrite F3, <- (F1 YELLOW) by discriminate. exact S2.
  - rewrite <- (F1 RED), <- (F2 RED) by discriminate. exact S3.
Qed.

(** ** The rules, for a record that is processed to its end *)

(** Rules 1 and 2: a color the record lacks repeats its last stored
    point, or is skipped when it has none. *)
Lemma carry_forward_rule datum lists c :
  at_color datum c = None ->
  snd (datum_lists datum lists) = Ok tt ->
  at_color (fst (datum_lists datum lists)) c =
  match index_from_end (at_color lists c) 1 with
  | Some prev => evict3 (at_color lists c) ++ [prev]
  | None => at_color lists c
  end.
Proof.
  intros Hd.
  apply datum_lists_at
    with (R := fun old new =>
                 new = match index_from_end old 1 with
                       | Some prev => evict3 old ++ [prev]
                       | None => old
                       end).
  intros l curr. rewrite color_lists_body_absent by exact Hd.
  destruct (index_from_end (at_color l c) 1); simpl; [|reflexivity].
  apply at_set_color_same.
Qed.

(** Rule 3: a color seen for the first time gets the point built from
    the seconds of its timestamp. *)
Lemma bootstrap_rule datum lists c tyme :
  at_color datum c = Some tyme ->
  at_color lists c = [] ->
  snd (datum_lists datum lists) = Ok tt ->
  at_color (fst (datum_lists datum lists)) c = [seconds_point tyme].
Proof.
  intros Hd Hl Hok. revert Hl.
  apply datum_lists_at
    with (R := fun old new => old = [] -> new = [seconds_point tyme]);
    [|exact Hok].
  intros l curr El.
  rewrite color_lists_body_first with (tyme := tyme) by assumption.
  apply at_set_color_same.
Qed.

(** The defect: GREEN reported again while no RED point is stored. *)
Lemma green_without_red datum lists tyme gs pg :
  at_color datum GREEN = Some tyme ->
  at_color lists GREEN = gs ++ [pg] ->
  at_color lists RED = [] ->
  datum_lists datum lists = (lists, Raise AttributeError).
Proof.
  intros Hd Hg Hr. unfold datum_lists. simpl. unfold bind, color_lists_body.
  simpl in *. rewrite Hd, Hg, Hr, index_from_end_last. reflexivity.
Qed.

Lemma color_lists_body_no_raise datum c st :
  c <> GREEN -> snd (color_lists_body datum c st) = Ok tt.
Proof.
  intros Hc. destruct st as [lists curr]. unfold color_lists_body.
  destruct c; [congruence| |]; unfold derive_point;
    destruct (at_color datum _), (index_from_end (at_color lists _) 1);
    simpl; try reflexivity;
    destruct (yellow curr), (green curr); reflexivity.
Qed.

Lemma datum_lists_result datum lists :
  snd (datum_lists datum lists) =
  if green_needs_red datum lists then Raise AttributeError else Ok tt.
Proof.
  rewrite datum_lists_unfold.
  assert (HG : snd (color_lists_body datum GREEN (lists, all_colors None)) =
               if green_needs_red datum lists
               then Raise AttributeError else Ok tt).
  { unfold color_lists_body, green_needs_red, derive_point.
    destruct (at_color datum GREEN), (index_from_end (at_color lists GREEN) 1),
      (index_from_end (at_color lists RED) 1); reflexivity. }
  destruct (color_lists_body datum GREEN (lists, all_colors None))
    as [st1 r1]. simpl in HG. subst r1.
  destruct (green_needs_red datum lists); [reflexivity|].
  pose proof (color_lists_body_no_raise datum YELLOW st1) as HY.
  destruct (color_lists_body datum YELLOW st1) as [st2 r2].
  simpl in HY. rewrite HY by discriminate.
  pose proof (color_lists_body_no_raise datum RED st2) as HR.
  destruct (color_lists_body datum RED st2) as [st3 r3].
  simpl in *. apply HR. discriminate.
Qed.

(* ================================================================= *)
(** ** The rules on the scenarios *)

(** C3.  The code at the failing input: with a GREEN point stored and no
    RED point, a record that reports GREEN raises AttributeError and
    appends nothing; the bootstrap point (130, 10) is not stored. *)
Theorem green_again_before_any_red_raises :
  run_calls green_then_green empty_histories =
  ({| cycle_history :=
        [(loc1, {| green := [pt 100 40]; yellow := []; red := [] |})];
      event_history := [] |},
   Raise AttributeError).
Proof. vm_compute. reflexivity. Qed.

(** C4, as stated, fails.  After [red_100_5_polls] the last RED point is
    (100, 5); the record with GREEN at 130 and YELLOW at 135 stores the
    GREEN point (130, 30) but, YELLOW having no point yet, the YELLOW
    point (135, 15).  And on a store that holds the RED point (100, 5)
    and no GREEN point, the same record stores the GREEN point
    (130, 10). *)
Lemma chaining_needs_stored_green_and_yellow :
  let h := fst (run_calls red_100_5_polls empty_histories) in
  let out := update_stored_cycle_points [(loc1, [green_130_yellow_135])]
               (cycle_history h) in
  let bare := [(loc1, {| green := []; yellow := []; red := [pt 100 5] |})] in
  let out' := update_stored_cycle_points [(loc1, [green_130_yellow_135])]
                bare in
  (points_of (cycle_history h) loc1 RED = [pt 95 35; pt 100 5] /\
   snd out = Ok tt /\
   points_of (fst out) loc1 GREEN = [pt 90 30; pt 98 3; pt 130 30] /\
   points_of (fst out) loc1 YELLOW = [pt 135 15] /\
   pt 135 15 <> pt 135 35) /\
  (snd out' = Ok tt /\
   points_of (fst out') loc1 GREEN = [pt 130 10] /\
   pt 130 10 <> pt 130 30).
Proof.
  vm_compute. repeat split; discriminate.
Qed.

(** C4, amended.  With the RED point (100, 5) stored last and a GREEN and
    a YELLOW point already stored, a record with GREEN at 130 and YELLOW
    at 135 is processed without exception and appends the GREEN point
    (130, 30) and the YELLOW point (135, 35); the colors are taken in the
    order GREEN, YELLOW, RED. *)
Theorem chaining_with_stored_green_and_yellow :
  forall (s : StoredCyclePointsType) (loc : Location) (datum : CycleDatum)
         (gs ys rs : list Point) (pg py : Point),
    points_of s loc GREEN = gs ++ [pg] ->
    points_of s loc YELLOW = ys ++ [py] ->
    points_of s loc RED = rs ++ [pt 100 5] ->
    at_color datum GREEN = Some (at_epoch 130) ->
    at_color datum YELLOW = Some (at_epoch 135) ->
    let out := update_stored_cycle_points [(loc, [datum])] s in
    snd out = Ok tt /\
    points_of (fst out) loc GREEN = evict3 (gs ++ [pg]) ++ [pt 130 30] /\
    points_of (fst out) loc YELLOW = evict3 (ys ++ [py]) ++ [pt 135 35] /\
    TLColor_members = [GREEN; YELLOW; RED].
Proof.
  intros s loc datum gs ys rs pg py Hg Hy Hr Dg Dy out. subst out.
  rewrite update_one_record.
  destruct (datum_body_sim loc datum s) as [H1 H2].
  unfold points_of in *. rewrite H1, H2. clear H1 H2.
  destruct (lookup no_points s loc) as [lg ly lr].
  destruct datum as [dg dy dr]. simpl in *. subst.
  rewrite datum_lists_unfold. unfold color_lists_body. simpl.
  rewrite !index_from_end_last. simpl.
  rewrite !index_from_end_last. simpl.
  rewrite !append_capped_evict.
  destruct dr as [tr|]; simpl; rewrite !index_from_end_last; simpl;
    repeat split; reflexivity.
Qed.

(** The amended C4 on a store that holds the three points. *)
Lemma chaining_with_stored_green_and_yellow_witness :
  let s := [(loc1, {| green := [pt 98 3];
                      yellow := [pt 99 4];
                      red := [pt 95 35; pt 100 5] |})] in
  let out := update_stored_cycle_points [(loc1, [green_130_yellow_135])] s in
  snd out = Ok tt /\
  points_of (fst out) loc1 GREEN = evict3 ([] ++ [pt 98 3]) ++ [pt 130 30] /\
  points_of (fst out) loc1 YELLOW = evict3 ([] ++ [pt 99 4]) ++ [pt 135 35] /\
  TLColor_members = [GREEN; YELLOW; RED].
Proof.
  exact (chaining_with_stored_green_and_yellow
           [(loc1, {| green := [pt 98 3];
                      yellow := [pt 99 4];
                      red := [pt 95 35; pt 100 5] |})]
           loc1 green_130_yellow_135 [] [] [pt 95 35] (pt 98 3) (pt 99 4)
           eq_refl eq_refl eq_refl eq_refl eq_refl).
Defined.

(** The three facts above, on the store. *)
Lemma record_result s loc datum :
  snd (update_stored_cycle_points [(loc, [datum])] s) =
  if green_needs_red datum (lookup no_points s loc)
  then Raise AttributeError else Ok tt.
Proof.
  rewrite update_one_record.
  destruct (datum_body_sim loc datum s) as [_ ->].
  apply datum_lists_result.
Qed.

Lemma carry_forward_when_processed s loc datum c :
  at_color datum c = None ->
  snd (update_stored_cycle_points [(loc, [datum])] s) = Ok tt ->
  points_of (fst (update_stored_cycle_points [(loc, [datum])] s)) loc c =
  match index_from_end (points_of s loc c) 1 with
  | Some prev => evict3 (points_of s loc c) ++ [prev]
  | None => points_of s loc c
  end.
Proof.
  rewrite update_one_record.
  destruct (datum_body_sim loc datum s) as [H1 H2].
  unfold points_of. rewrite H1, H2. apply carry_forward_rule.
Qed.

Lemma bootstrap_when_processed s loc datum c tyme :
  at_color datum c = Some tyme ->
  points_of s loc c = [] ->
  snd (update_stored_cycle_points [(loc, [datum])] s) = Ok tt ->
  points_of (fst (update_stored_cycle_points [(loc, [datum])] s)) loc c =
  [seconds_point tyme].
Proof.
  rewrite update_one_record.
  destruct (datum_body_sim loc datum s) as [H1 H2].
  unfold points_of. rewrite H1, H2. apply bootstrap_rule.
Qed.

(** C5.  The code at the failing input: the second record lacks YELLOW
    while the YELLOW point (105, 45) is stored, but the record raises
    AttributeError on GREEN, before YELLOW is reached, and the YELLOW
    list is left with its one point. *)
Theorem carry_forward_lost_to_exception :
  run_calls yellow_missing_after_green_yellow empty_histories =
  ({| cycle_history :=
        [(loc1, {| green := [pt 100 40];
                   yellow := [pt 105 45];
                   red := [] |})];
      event_history := [] |},
   Raise AttributeError).
Proof. vm_compute. reflexivity. Qed.

(** C6.  The code at the failing input: the second record holds the
    first RED ever seen at the location, but it raises AttributeError on
    GREEN, before RED is reached, and no RED point is stored. *)
Theorem bootstrap_lost_to_exception :
  run_calls first_red_after_green empty_histories =
  ({| cycle_history :=
        [(loc1, {| green := [pt 100 40]; yellow := []; red := [] |})];
      event_history := [] |},
   Raise AttributeError).
Proof. vm_compute. reflexivity. Qed.

(** C7, as stated, fails.  When poll 2 reports RED alone, GREEN is
    carried forward, so its list has two points, and the RED point is
    (160, 40); when poll 2 reports GREEN at 100 again, the record raises
    AttributeError and no RED point is stored. *)
Lemma green_then_red_is_not_as_claimed :
  let a := run_calls green_100_then_red_160 empty_histories in
  let b := run_calls green_100_then_green_100_red_160 empty_histories in
  (snd a = Ok tt /\
   points_of (cycle_history (fst a)) loc1 GREEN = [pt 100 40; pt 100 40] /\
   points_of (cycle_history (fst a)) loc1 RED = [pt 160 40] /\
   [pt 100 40; pt 100 40] <> [pt 100 40] /\
   [pt 160 40] <> [pt 160 60]) /\
  (snd b = Raise AttributeError /\
   points_of (cycle_history (fst b)) loc1 GREEN = [pt 100 40] /\
   points_of (cycle_history (fst b)) loc1 RED = [] /\
   @nil Point <> [pt 160 60]).
Proof.
  vm_compute. repeat split; discriminate.
Qed.

(** C7, amended.  From the empty histories, a poll with GREEN alone at
    epoch 100 (its seconds are 40) and a poll with RED alone at epoch 160
    leave GREEN = [(100, 40); (100, 40)], the second point carried
    forward, and RED = [(160, 40)], the seconds of 160, as no RED point
    was stored. *)
Theorem green_then_red_scenario :
  second (at_epoch 100) = 40%Z /\
  second (at_epoch 160) = 40%Z /\
  run_calls green_100_then_red_160 empty_histories =
  ({| cycle_history :=
        [(loc1, {| green := [pt 100 40; pt 100 40];
                   yellow := [];
                   red := [pt 160 40] |})];
      event_history := [] |},
   Ok tt).
Proof. vm_compute. repeat split; reflexivity. Qed.

(* ================================================================= *)
(** ** write_cycle_data *)

Lemma last_two_cases {A} (l : list A) :
  l = [] \/ (exists a, l = [a]) \/ (exists pre a b, l = pre ++ [a; b]).
Proof.
  rewrite <- (rev_involutive l).
  destruct (rev l) as [|b [|a r]]; simpl.
  - left. reflexivity.
  - right. left. exists b. reflexivity.
  - right. right. exists (rev r), a, b. rewrite <- app_assoc. reflexivity.
Qed.

Lemma index_from_end_second {A} (pre : list A) (a b : A) :
  index_from_end (pre ++ [a; b]) 2 = Some a.
Proof.
  unfold index_from_end. rewrite length_app. cbn [length].
  replace (length pre + 2)%nat with (S (S (length pre))) by lia.
  cbn [Nat.leb andb Nat.sub]. rewrite Nat.sub_0_r.
  rewrite nth_error_app2 by lia. rewrite Nat.sub_diag. reflexivity.
Qed.

Lemma index_from_end_first {A} (pre : list A) (a b : A) :
  index_from_end (pre ++ [a; b]) 1 = Some b.
Proof.
  change [a; b] with ([a] ++ [b]). rewrite app_assoc.
  apply index_from_end_last.
Qed.

Lemma last_two_rows_snoc loc pre a b :
  last_two_rows loc (pre ++ [a; b]) =
  [Data (rsu_id loc) (bound loc) (movement loc) (x a) (y a);
   Data (rsu_id loc) (bound loc) (movement loc) (x b) (y b)].
Proof.
  unfold last_two_rows. rewrite rev_app_distr. reflexivity.
Qed.

Lemma cycle_rows_body_lines loc stored_points fs color c :
  at_color (lines (cycle_rows_body loc stored_points fs color)) c =
  at_color (lines fs) c ++
  match color, c with
  | GREEN, GREEN | YELLOW, YELLOW | RED, RED =>
      last_two_rows loc (at_color stored_points c)
  | _, _ => []
  end.
Proof.
  unfold cycle_rows_body.
  destruct (last_two_cases (at_color stored_points color))
    as [E | [[a E] | (pre & a & b & E)]]; rewrite E.
  - simpl. destruct color, c; rewrite ?E, app_nil_r; reflexivity.
  - simpl. destruct color, c; rewrite ?E, app_nil_r; reflexivity.
  - replace (length (pre ++ [a; b]) <? 2)%nat with false
      by (symmetry; apply Nat.ltb_ge; rewrite length_app; simpl; lia).
    rewrite index_from_end_second, index_from_end_first.
    simpl. rewrite at_set_color.
    destruct color, c; rewrite ?E, ?last_two_rows_snoc, ?app_nil_r;
      reflexivity.
Qed.

Lemma cycle_rows_body_dots loc stored_points fs color :
  dots (cycle_rows_body loc stored_points fs color) = dots fs.
Proof.
  unfold cycle_rows_body.
  destruct (length _ <? 2)%nat; [reflexivity|].
  destruct (index_from_end (at_color stored_points color) 2),
    (index_from_end (at_color stored_points color) 1); reflexivity.
Qed.

Lemma location_rows_lines loc stored_points fs c :
  at_color
    (lines (fold_left (cycle_rows_body loc stored_points) TLColor_members fs))
    c =
  at_color (lines fs) c ++ last_two_rows loc (at_color stored_points c).
Proof.
  unfold TLColor_members. cbn [fold_left].
  rewrite !cycle_rows_body_lines.
  destruct c; rewrite ?app_nil_r; reflexivity.
Qed.

Lemma location_rows_dots loc stored_points fs :
  dots (fold_left (cycle_rows_body loc stored_points) TLColor_members fs) =
  dots fs.
Proof.
  unfold TLColor_members. cbn [fold_left].
  rewrite !cycle_rows_body_dots. reflexivity.
Qed.

Lemma all_rows_lines (s : StoredCyclePointsType) fs c :
  at_color
    (lines
       (fold_left
          (fun fs '(loc, stored_points) =>
             fold_left (cycle_rows_body loc stored_points) TLColor_members fs)
          s fs)) c =
  at_color (lines fs) c ++
  flat_map (fun '(loc, stored_points) =>
              last_two_rows loc (at_color stored_points c)) s.
Proof.
  revert fs. induction s as [|[loc sp] s IH]; intros fs;
    cbn [fold_left flat_map].
  - rewrite app_nil_r. reflexivity.
  - rewrite IH, location_rows_lines, app_assoc. reflexivity.
Qed.

Lemma all_rows_dots (s : StoredCyclePointsType) fs :
  dots
    (fold_left
       (fun fs '(loc, stored_points) =>
          fold_left (cycle_rows_body loc stored_points) TLColor_members fs)
       s fs) = dots fs.
Proof.
  revert fs. induction s as [|[loc sp] s IH]; intros fs; cbn [fold_left].
  - reflexivity.
  - rewrite IH, location_rows_dots. reflexivity.
Qed.

(** C10.  After a flush the file of each color holds the header and
    then, location by location in the order of the store, the rows of
    [last_two_rows]: none for a list of fewer than two points, and for a
    longer list the row that holds the site, approach, movement, x and y
    of its second-to-last point followed by the row that holds those of
    its last point, so that of three stored points the oldest is not
    written.  The events file is not touched.  A store that holds three
    GREEN points, one YELLOW point and no RED point for one location
    gives a GREEN file of the header and the rows of the second and the
    third GREEN point, and a YELLOW and a RED file of the header
    alone. *)
Theorem write_cycle_data_rows :
  forall (s : StoredCyclePointsType) (fs : Files) (c : TLColor),
    at_color (lines (write_cycle_data s fs)) c =
    Header :: flat_map (fun '(loc, stored_points) =>
                          last_two_rows loc (at_color stored_points c)) s
    /\ dots (write_cycle_data s fs) = dots fs
    /\ (forall loc, last_two_rows loc [] = [])
    /\ (forall loc p, last_two_rows loc [p] = [])
    /\ (forall loc pre a b,
           last_two_rows loc (pre ++ [a; b]) =
           [Data (rsu_id loc) (bound loc) (movement loc) (x a) (y a);
            Data (rsu_id loc) (bound loc) (movement loc) (x b) (y b)])
    /\ (forall loc p1 p2 p3,
           last_two_rows loc [p1; p2; p3] =
           [Data (rsu_id loc) (bound loc) (movement loc) (x p2) (y p2);
            Data (rsu_id loc) (bound loc) (movement loc) (x p3) (y p3)])
    /\ lines (write_cycle_data stored_three_greens fs) =
       {| green := [Header; Data 1 "NB" "T" 98 3; Data 1 "NB" "T" 130 30];
          yellow := [Header];
          red := [Header] |}.
Proof.
  intros s fs c. unfold write_cycle_data.
  rewrite all_rows_lines, all_rows_dots.
  repeat split; try reflexivity.
  - destruct c; reflexivity.
  - intros loc pre a b. apply last_two_rows_snoc.
Qed.

(* ================================================================= *)
(** ** write_events *)

(** *** Floats *)

Lemma fle_true (a b : float) : fle a b = true <-> a <= b.
Proof. apply Qle_bool_iff. Qed.

Lemma flt_true (a b : float) : flt a b = true <-> a < b.
Proof.
  unfold flt. rewrite negb_true_iff. split.
  - intros H. apply Qnot_le_lt. intros Hle.
    apply Qle_bool_iff in Hle. congruence.
  - intros H. destruct (Qle_bool b a) eqn:E; [|reflexivity].
    apply Qle_bool_iff in E. apply Qlt_not_le in H. contradiction.
Qed.

Lemma fsub_eq (a b : float) : fsub a b == a - b.
Proof. apply Qred_correct. Qed.

(** *** The closest RED point before an event *)

Lemma red_step_spec event seen diff point :
  closest_red_spec event seen diff ->
  closest_red_spec event (seen ++ [point]) (red_step event diff point).
Proof.
  unfold red_step. intros H.
  destruct (fle 0 (fsub event (x point))) eqn:E0; simpl.
  - apply fle_true in E0. rewrite fsub_eq in E0.
    assert (Hle : x point <= event) by lra.
    destruct diff as [d|]; simpl in *.
    + destruct H as (p & Hin & Hp & Hmax & ->).
      destruct (flt (fsub event (x point)) (fsub event (x p))) eqn:E1.
      * apply flt_true in E1. rewrite !fsub_eq in E1.
        exists point. repeat split; auto.
        -- apply in_or_app. right. left. reflexivity.
        -- intros q Hq Hqe. apply in_app_or in Hq.
           destruct Hq as [Hq | [<- | []]]; [|lra].
           specialize (Hmax q Hq Hqe). lra.
      * assert (Hn : ~ fsub event (x point) < fsub event (x p)).
        { intros Hlt. apply flt_true in Hlt. congruence. }
        rewrite !fsub_eq in Hn.
        exists p. repeat split; auto.
        -- apply in_or_app. left. exact Hin.
        -- intros q Hq Hqe. apply in_app_or in Hq.
           destruct Hq as [Hq | [<- | []]]; [auto|lra].
    + exists point. repeat split; auto.
      * apply in_or_app. right. left. reflexivity.
      * intros q Hq Hqe. apply in_app_or in Hq.
        destruct Hq as [Hq | [<- | []]]; [|lra].
        exfalso. exact (H q Hq Hqe).
  - assert (Hn : ~ x point <= event).
    { intros Hle. assert (H0 : 0 <= fsub event (x point))
        by (rewrite fsub_eq; lra).
      apply fle_true in H0. congruence. }
    destruct diff as [d|]; simpl in *.
    + destruct H as (p & Hin & Hp & Hmax & ->).
      exists p. repeat split; auto.
      * apply in_or_app. left. exact Hin.
      * intros q Hq Hqe. apply in_app_or in Hq.
        destruct Hq as [Hq | [<- | []]]; [auto|contradiction].
    + intros q Hq. apply in_app_or in Hq.
      destruct Hq as [Hq | [<- | []]]; auto.
Qed.

Lemma red_loop_spec event reds :
  forall seen diff,
    closest_red_spec event seen diff ->
    closest_red_spec event (seen ++ reds)
      (fold_left (red_step event) reds diff).
Proof.
  induction reds as [|point reds IH]; intros seen diff H; simpl.
  - rewrite app_nil_r. exact H.
  - change (point :: reds) with ([point] ++ reds). rewrite app_assoc.
    apply IH, red_step_spec, H.
Qed.

Lemma closest_red_correct event reds :
  closest_red_spec event reds (closest_red event reds).
Proof.
  unfold closest_red.
  apply (red_loop_spec event reds [] None). simpl. intros p [].
Qed.

(** *** sorted *)

Lemma insert_sorted_perm e l : Permutation (insert_sorted e l) (e :: l).
Proof.
  induction l as [|a l IH]; simpl.
  - reflexivity.
  - destruct (fle e a).
    + reflexivity.
    + rewrite IH. apply perm_swap.
Qed.

Lemma sorted_perm l : Permutation (sorted l) l.
Proof.
  induction l as [|a l IH]; simpl.
  - reflexivity.
  - rewrite insert_sorted_perm. constructor. exact IH.
Qed.

Lemma insert_sorted_ascending e l :
  Sorted Qle l -> Sorted Qle (insert_sorted e l).
Proof.
  induction 1 as [|a l Hs IH Hhd]; simpl.
  - repeat constructor.
  - destruct (fle e a) eqn:E.
    + apply fle_true in E. repeat constructor; assumption.
    + assert (Hae : a <= e).
      { destruct (Qlt_le_dec a e) as [Hlt|Hle]; [lra|].
        apply fle_true in Hle. congruence. }
      constructor; [exact IH|].
      destruct l as [|b l]; simpl.
      * constructor. exact Hae.
      * destruct (fle e b); constructor; [exact Hae|].
        inversion Hhd. assumption.
Qed.

Lemma sorted_ascending l : Sorted Qle (sorted l).
Proof.
  induction l as [|a l IH]; simpl.
  - constructor.
  - apply insert_sorted_ascending, IH.
Qed.

(** *** The rows of one location *)

Lemma combine_snoc {A B} (l : list A) (l' : list B) a b :
  length l = length l' ->
  combine (l ++ [a]) (l' ++ [b]) = combine l l' ++ [(a, b)].
Proof.
  revert l'. induction l as [|a0 l IH]; intros [|b0 l'] H; simpl in *;
    try discriminate.
  - reflexivity.
  - rewrite IH by lia. reflexivity.
Qed.

Lemma event_loop_rows loc reds events :
  forall x_vals y_vals,
    length x_vals = length y_vals ->
    let '(x_vals', y_vals') :=
      fold_left (event_step reds) events (x_vals, y_vals) in
    length x_vals' = length y_vals' /\
    map (fun '(x_val, y_val) => make_data_row loc x_val y_val)
      (combine x_vals' y_vals') =
    map (fun '(x_val, y_val) => make_data_row loc x_val y_val)
      (combine x_vals y_vals) ++ flat_map (matched_row loc reds) events.
Proof.
  induction events as [|e events IH]; intros xs ys Hlen;
    cbn [fold_left flat_map].
  - rewrite app_nil_r. auto.
  - assert (Hs : event_step reds (xs, ys) e =
                 match closest_red e reds with
                 | None => (xs, ys)
                 | Some d => (xs ++ [e], ys ++ [d])
                 end) by reflexivity.
    assert (Hm : matched_row loc reds e =
                 match closest_red e reds with
                 | Some d => [make_data_row loc e d]
                 | None => []
                 end) by reflexivity.
    rewrite Hs, Hm. clear Hs Hm.
    destruct (closest_red e reds) as [d|].
    + specialize (IH (xs ++ [e]) (ys ++ [d])).
      destruct (fold_left (event_step reds) events (xs ++ [e], ys ++ [d]))
        as [xs' ys'].
      rewrite !length_app in IH. simpl in IH.
      destruct IH as [IH1 IH2]; [lia|]. split; [exact IH1|].
      rewrite IH2, combine_snoc, map_app, <- app_assoc by exact Hlen.
      reflexivity.
    + specialize (IH xs ys Hlen).
      destruct (fold_left (event_step reds) events (xs, ys)) as [xs' ys'].
      exact IH.
Qed.

Lemma events_rows_body_rows rows s loc all_events :
  fst (events_rows_body (rows, s) (loc, all_events)) =
  rows ++ correlated_rows loc all_events (points_of s loc RED).
Proof.
  unfold events_rows_body, correlated_rows, points_of.
  destruct (length all_events <? 3)%nat eqn:E3; cbn [orb fst].
  - rewrite app_nil_r. reflexivity.
  - rewrite lookup_vivify.
    destruct (length (at_color (lookup no_points s loc) RED) <? 3)%nat;
      cbn [fst].
    + rewrite app_nil_r. reflexivity.
    + destruct all_events as [|batch rest]; [discriminate E3|].
      cbn [nth_error hd].
      pose proof (event_loop_rows loc
                    (at_color (lookup no_points s loc) RED)
                    (sorted batch) [] [] eq_refl) as H.
      destruct (fold_left (event_step _) (sorted batch) ([], []))
        as [xs ys].
      destruct H as [_ H]. cbn [fst]. rewrite H. reflexivity.
Qed.

Lemma events_rows_body_store rows s item loc c :
  points_of (snd (events_rows_body (rows, s) item)) loc c = points_of s loc c.
Proof.
  destruct item as [loc0 all_events]. unfold events_rows_body.
  destruct (length all_events <? 3)%nat; [reflexivity|].
  destruct (length _ <? 3)%nat; cbn [snd].
  - unfold points_of. rewrite lookup_vivify. reflexivity.
  - destruct (nth_error all_events 0) as [batch|]; cbn [snd].
    + destruct (fold_left (event_step _) (sorted batch) ([], []))
        as [xs ys].
      cbn [snd]. unfold points_of. rewrite lookup_vivify. reflexivity.
    + unfold points_of. rewrite lookup_vivify. reflexivity.
Qed.

Lemma events_loop_rows (stored_events : StoredEventsType) :
  forall rows s,
    fst (fold_left events_rows_body stored_events (rows, s)) =
    rows ++ flat_map (fun '(loc, all_events) =>
                        correlated_rows loc all_events (points_of s loc RED))
              stored_events
    /\ forall loc c,
        points_of (snd (fold_left events_rows_body stored_events (rows, s)))
          loc c = points_of s loc c.
Proof.
  induction stored_events as [|[loc all_events] rest IH]; intros rows s;
    cbn [fold_left flat_map].
  - rewrite app_nil_r. auto.
  - pose proof (events_rows_body_rows rows s loc all_events) as H1.
    pose proof (events_rows_body_store rows s (loc, all_events)) as H2.
    destruct (events_rows_body (rows, s) (loc, all_events)) as [rows1 s1].
    cbn [fst snd] in H1, H2. subst rows1.
    destruct (IH (rows ++ correlated_rows loc all_events (points_of s loc RED))
                s1) as [IH1 IH2].
    split.
    + rewrite IH1, <- app_assoc. f_equal. f_equal.
      apply flat_map_ext. intros [l a]. rewrite H2. reflexivity.
    + intros l c. rewrite IH2. apply H2.
Qed.

(** C2.  After [write_events] the events file holds the header and then,
    location by location, the rows of [correlated_rows]: none for a
    location with fewer than three batches or fewer than three RED
    points, and otherwise, for the events of the oldest batch in
    ascending order, the rows of [matched_row].  The row of an event e
    holds the site, approach and movement of the location, x = e and
    y = d, where d is what the loop over the RED points leaves in
    [diff]: then a RED point p of the location has x p <= e, no RED
    point of the location that starts at or before e starts after p,
    and d is e - x p; an event that no RED point precedes has no row.
    The cycle files and the stored points are left as they were.  With
    RED points at 100, 160 and 220, the event at 170 gives the row
    (170, 10) and the event at 90 gives none; with fewer than three RED
    points or fewer than three batches nothing follows the header. *)
Theorem write_events_correlation :
  forall (stored_events : StoredEventsType) (s : StoredCyclePointsType)
         (fs : Files),
    let out := write_events stored_events s fs in
    dots (fst out) =
    Header :: flat_map (fun '(loc, all_events) =>
                          correlated_rows loc all_events (points_of s loc RED))
                stored_events
    /\ lines (fst out) = lines fs
    /\ (forall loc c, points_of (snd out) loc c = points_of s loc c)
    /\ (forall loc all_events reds,
           (length all_events < 3)%nat \/ (length reds < 3)%nat ->
           correlated_rows loc all_events reds = [])
    /\ (forall loc batch b2 b3 rest r1 r2 r3 reds,
           correlated_rows loc (batch :: b2 :: b3 :: rest)
             (r1 :: r2 :: r3 :: reds) =
           flat_map (matched_row loc (r1 :: r2 :: r3 :: reds))
             (sorted batch))
    /\ (forall loc reds event,
           matched_row loc reds event =
           match closest_red event reds with
           | Some d => [Data (rsu_id loc) (bound loc) (movement loc) event d]
           | None => []
           end)
    /\ (forall event reds d,
           closest_red event reds = Some d ->
           exists p, In p reds /\ x p <= event /\
                     (forall q, In q reds -> x q <= event -> x q <= x p) /\
                     d == event - x p)
    /\ (forall event reds,
           closest_red event reds = None ->
           forall p, In p reds -> ~ x p <= event)
    /\ (forall batch,
           Permutation (sorted batch) batch /\ Sorted Qle (sorted batch))
    /\ matched_row loc1 reds_100_160_220 170 = [Data 1 "NB" "T" 170 10]
    /\ matched_row loc1 reds_100_160_220 90 = []
    /\ dots (fst (write_events events_170_90
                    [(loc1, {| green := []; yellow := [];
                               red := reds_100_160_220 |})] fs)) =
       [Header; Data 1 "NB" "T" 170 10]
    /\ dots (fst (write_events events_170_90
                    [(loc1, {| green := []; yellow := [];
                               red := [pt 100 40; pt 160 40] |})] fs)) =
       [Header]
    /\ dots (fst (write_events [(loc1, [[170; 90]; []])]
                    [(loc1, {| green := []; yellow := [];
                               red := reds_100_160_220 |})] fs)) =
       [Header].
Proof.
  intros stored_events s fs out. subst out. unfold write_events.
  destruct (events_loop_rows stored_events [Header] s) as [H1 H2].
  destruct (fold_left events_rows_body stored_events ([Header], s))
    as [rows s'].
  cbn [fst snd dots lines] in *.
  repeat apply conj; try reflexivity.
  - exact H1.
  - exact H2.
  - intros loc all_events reds H. unfold correlated_rows.
    destruct H as [H | H]; apply Nat.ltb_lt in H; rewrite H;
      [reflexivity | rewrite orb_true_r; reflexivity].
  - intros event reds d H.
    pose proof (closest_red_correct event reds) as Hc.
    rewrite H in Hc. destruct Hc as (p & Hin & Hle & Hmax & ->).
    exists p. repeat split; auto. apply fsub_eq.
  - intros event reds Hn.
    pose proof (closest_red_correct event reds) as Hc.
    rewrite Hn in Hc. exact Hc.
  - intros batch. split; [apply sorted_perm | apply sorted_ascending].
Qed.

(* ================================================================= *)
(** ** The order of the stored points *)

Lemma ascending_Sorted l : ascending l = true <-> Sorted Qle l.
Proof.
  induction l as [|a l IH]; simpl.
  - split; auto.
  - destruct l as [|b l].
    + split; auto.
    + rewrite andb_true_iff, IH, fle_true. split.
      * intros [Hab Hs]. constructor; [exact Hs|]. constructor. exact Hab.
      * intros H. inversion H as [|? ? Hs Hhd]; subst.
        inversion Hhd; subst. auto.
Qed.

Lemma ascending_iff l : ascending l = true <-> StronglySorted Qle l.
Proof.
  rewrite ascending_Sorted. split.
  - apply Sorted_StronglySorted. intros a b c. apply Qle_trans.
  - apply StronglySorted_Sorted.
Qed.

Lemma StronglySorted_app_iff (l1 l2 : list Q) :
  StronglySorted Qle (l1 ++ l2) <->
  StronglySorted Qle l1 /\ StronglySorted Qle l2 /\
  (forall a b, In a l1 -> In b l2 -> a <= b).
Proof.
  induction l1 as [|a0 l1 IH]; simpl.
  - split.
    + intros H. repeat split; [constructor | exact H | intros a b []].
    + intros (_ & H & _). exact H.
  - split.
    + intros H. inversion H as [|? ? Hs Hall]; subst.
      apply IH in Hs. destruct Hs as (H1 & H2 & H3).
      rewrite Forall_app in Hall. destruct Hall as [Ha1 Ha2].
      repeat split.
      * constructor; assumption.
      * exact H2.
      * intros a b [<- | Ha] Hb.
        -- rewrite Forall_forall in Ha2. apply Ha2, Hb.
        -- apply H3; assumption.
    + intros (H1 & H2 & H3). inversion H1 as [|? ? Hs Hall]; subst.
      constructor.
      * apply IH. repeat split; auto.
      * rewrite Forall_app. split; [exact Hall|].
        rewrite Forall_forall. intros b Hb. apply H3; auto.
Qed.

Lemma index_from_end_1_inv {A} (l : list A) (a : A) :
  index_from_end l 1 = Some a -> exists l', l = l' ++ [a].
Proof.
  intros H. destruct l as [|a0 l0].
  - rewrite index_from_end_nil in H. discriminate.
  - destruct (@exists_last A (a0 :: l0)) as (l' & a' & E); [discriminate|].
    rewrite E in *. rewrite index_from_end_last in H.
    injection H as ->. exists l'. reflexivity.
Qed.

Lemma sorted_after_evict (old : list Point) (r : list Q) :
  StronglySorted Qle (map x old ++ r) ->
  StronglySorted Qle (map x (evict3 old) ++ r).
Proof.
  unfold evict3. destruct (length old =? 3)%nat; [|auto].
  destruct old as [|a old]; simpl; [auto|].
  intros H. inversion H. assumption.
Qed.

Lemma sorted_after_append (datum : CycleDatum) (c : TLColor)
  (old : list Point) (p : Point) (rest : list CycleDatum) :
  StronglySorted Qle (map x old ++ reported c (datum :: rest)) ->
  appended_as datum c old p ->
  StronglySorted Qle (map x (evict3 old ++ [p]) ++ reported c rest).
Proof.
  unfold appended_as. simpl. intros H Hp.
  rewrite map_app, <- app_assoc. simpl.
  apply sorted_after_evict.
  destruct (at_color datum c) as [tyme|].
  - rewrite Hp. exact H.
  - apply index_from_end_1_inv in Hp. destruct Hp as [old' ->].
    rewrite map_app in *. simpl in *. rewrite <- app_assoc in *. simpl in *.
    apply StronglySorted_app_iff in H. destruct H as (H1 & H2 & H3).
    apply StronglySorted_app_iff. repeat split.
    + exact H1.
    + constructor; [exact H2|]. constructor; [apply Qle_refl|].
      inversion H2. assumption.
    + intros a b Ha [<- | Hb].
      * apply H3; [exact Ha | left; reflexivity].
      * apply H3; [exact Ha | exact Hb].
Qed.

Lemma sorted_without_append (datum : CycleDatum) (c : TLColor)
  (old : list Point) (rest : list CycleDatum) :
  StronglySorted Qle (map x old ++ reported c (datum :: rest)) ->
  StronglySorted Qle (map x old ++ reported c rest).
Proof.
  simpl. destruct (at_color datum c) as [tyme|]; [|auto].
  intros H. apply StronglySorted_app_iff in H. destruct H as (H1 & H2 & H3).
  apply StronglySorted_app_iff. repeat split.
  - exact H1.
  - inversion H2. assumption.
  - intros a b Ha Hb. apply H3; [exact Ha | right; exact Hb].
Qed.

Lemma datum_body_in_order loc datum rest s :
  in_order_at s loc (datum :: rest) ->
  in_order_at (fst (datum_body loc datum s)) loc rest.
Proof.
  intros H c. specialize (H c).
  destruct (datum_body_points loc datum s loc c) as [E | (_ & p & E & Hp)];
    rewrite E.
  - apply sorted_without_append with (datum := datum). exact H.
  - apply sorted_after_append with (datum := datum); assumption.
Qed.

Lemma datum_body_frame loc datum s loc' c :
  loc' <> loc ->
  points_of (fst (datum_body loc datum s)) loc' c = points_of s loc' c.
Proof.
  intros Hn.
  destruct (datum_body_points loc datum s loc' c) as [E | (E & _)];
    [exact E | contradiction].
Qed.

Lemma data_loop_in_order loc (data : list CycleDatum) :
  forall s,
    in_order_at s loc data ->
    in_order_at (fst (for_each data (datum_body loc) s)) loc [] /\
    forall loc' c,
      loc' <> loc ->
      points_of (fst (for_each data (datum_body loc) s)) loc' c =
      points_of s loc' c.
Proof.
  induction data as [|datum data IH]; intros s H; cbn [for_each].
  - split; [exact H | reflexivity].
  - unfold bind.
    pose proof (datum_body_in_order loc datum data s H) as H1.
    pose proof (datum_body_frame loc datum s) as F1.
    destruct (datum_body loc datum s) as [s1 [[]|e]]; cbn [fst] in *.
    + destruct (IH s1 H1) as [IH1 IH2]. split; [exact IH1|].
      intros loc' c Hn. rewrite IH2, F1 by exact Hn. reflexivity.
    + split; [|exact F1].
      intros c. specialize (H1 c). rewrite app_nil_r.
      apply StronglySorted_app_iff in H1. apply H1.
Qed.

Lemma all_data_in_order (all_cycle_data : CycleDataType) :
  forall s,
    NoDup (map fst all_cycle_data) ->
    (forall loc, in_order_at s loc []) ->
    (forall loc data,
        In (loc, data) all_cycle_data -> in_order_at s loc data) ->
    forall loc,
      in_order_at (fst (update_stored_cycle_points all_cycle_data s)) loc [].
Proof.
  unfold update_stored_cycle_points.
  induction all_cycle_data as [|[loc0 data0] rest IH];
    intros s Hnd Hs Hd loc; cbn [for_each].
  - apply Hs.
  - unfold bind. inversion Hnd as [|? ? Hnotin Hnd']; subst.
    destruct (data_loop_in_order loc0 data0 s) as [H1 F1].
    { apply Hd. left. reflexivity. }
    assert (Hs1 : forall l,
               in_order_at (fst (for_each data0 (datum_body loc0) s)) l []).
    { intros l c. destruct (Location_eqb l loc0) eqn:E.
      - apply Location_eqb_eq in E. subst l. apply H1.
      - rewrite F1; [apply Hs|].
        intros ->. rewrite Location_eqb_refl in E. discriminate. }
    destruct (for_each data0 (datum_body loc0) s) as [s1 [[]|e]];
      cbn [fst] in *.
    + apply IH; [exact Hnd' | exact Hs1 |].
      intros l d Hin c. rewrite F1; [apply Hd; right; exact Hin|].
      intros ->. apply Hnotin.
      change loc0 with (fst (loc0, d)). apply in_map, Hin.
    + apply Hs1.
Qed.

(** C8, as stated, fails.  A color that a record does not report is
    carried forward, which stores its last point a second time: after
    GREEN at 100 and then RED alone at 160 the GREEN list is
    [(100, 40); (100, 40)].  And the timestamps are stored as reported:
    RED at 160 and then RED at 100 leave the RED list
    [(160, 40); (100, 40)]. *)
Lemma stored_x_not_increasing :
  let a := fst (run_calls green_100_then_red_160 empty_histories) in
  let b := fst (run_calls
                  [UpdateCyclePoints [(loc1, [observed RED 160 no_colors])];
                   UpdateCyclePoints [(loc1, [observed RED 100 no_colors])]]
                  empty_histories) in
  (points_of (cycle_history a) loc1 GREEN = [pt 100 40; pt 100 40] /\
   increasing_x (points_of (cycle_history a) loc1 GREEN) = false) /\
  (points_of (cycle_history b) loc1 RED = [pt 160 40; pt 100 40] /\
   increasing_x (points_of (cycle_history b) loc1 RED) = false /\
   nondecreasing_x (points_of (cycle_history b) loc1 RED) = false).
Proof. vm_compute. repeat split; reflexivity. Qed.

(** C8, amended.  A call of [update_stored_cycle_points] keeps every
    stored list non-decreasing in x, whether it returns or raises,
    when each location of the snapshot appears once, the stored lists
    are non-decreasing, and for each location and color the stored x
    followed by the timestamps the snapshot reports, in order, are
    non-decreasing. *)
Theorem stored_x_nondecreasing :
  forall (loc : Location) (c : TLColor) (all_cycle_data : CycleDataType)
         (s : StoredCyclePointsType),
    NoDup (map fst all_cycle_data) ->
    (forall loc' c', nondecreasing_x (points_of s loc' c') = true) ->
    (forall loc' data c',
        In (loc', data) all_cycle_data ->
        ascending (map x (points_of s loc' c') ++ reported c' data) = true) ->
    nondecreasing_x
      (points_of (fst (update_stored_cycle_points all_cycle_data s)) loc c)
    = true.
Proof.
  intros loc c all_cycle_data s Hnd Hs Hd.
  unfold nondecreasing_x. apply ascending_iff.
  pose proof (all_data_in_order all_cycle_data s Hnd) as H.
  specialize (H ltac:(intros l c'; simpl; rewrite app_nil_r;
                      apply ascending_iff, Hs)
                ltac:(intros l d Hin c'; apply ascending_iff, Hd, Hin)
                loc c).
  simpl in H. rewrite app_nil_r in H. exact H.
Qed.

(** The amended C8 on a store and a snapshot that are in order. *)
Lemma stored_x_nondecreasing_witness :
  nondecreasing_x
    (points_of (fst (update_stored_cycle_points green_98_red_100 stored_90_95))
       loc1 GREEN) = true.
Proof.
  apply (stored_x_nondecreasing loc1 GREEN green_98_red_100 stored_90_95).
  - repeat constructor. simpl. tauto.
  - intros loc' c'. unfold points_of, lookup. simpl.
    destruct (Location_eqb loc1 loc'); destruct c'; reflexivity.
  - intros loc' data c' [H | []]. injection H as <- <-.
    destruct c'; reflexivity.
Defined.

(* ================================================================= *)
(** ** The snapshot parsers *)





Lemma in_dict_set {V} (k k' : Location) (v v' : V) (d : dict V) :
  In (k', v') (dict_set k v d) -> v' = v \/ In (k', v') d.
Proof.
  induction d as [|[k0 v0] d IH]; simpl.
  - intros [[= _ <-] | []]. left. reflexivity.
  - destruct (Location_eqb k0 k); simpl.
    + intros [[= _ <-] | H]; auto.
    + intros [H | H]; auto. destruct (IH H); auto.
Qed.




Lemma dict_set_twice {V} (k : Location) (v v' : V) (d : dict V) :
  dict_set k v' (dict_set k v d) = dict_set k v' d.
Proof.
  induction d as [|[k0 v0] d IH]; simpl.
  - rewrite Location_eqb_refl. reflexivity.
  - destruct (Location_eqb k0 k) eqn:E; simpl; rewrite E.
    + reflexivity.
    + rewrite IH. reflexivity.
Qed.

Lemma dict_set_vivify {V} (dflt : V) (k : Location) (v : V) (d : dict V) :
  dict_set k v (vivify dflt k d) = dict_set k v d.
Proof.
  unfold vivify. destruct (dict_get d k); [reflexivity|].
  apply dict_set_twice.
Qed.

(** *** The arithmetic of [timedelta] and [datetime] *)














(** *** Status and presence *)



Section ParserProperties.

Variable strptime : string -> result datetime.
Variable float_of_str : string -> result float.
Variable int_of_str : string -> result Z.















Lemma failed_status_is_no_data msg tyme :
  status_failed msg = true ->
  make_cycle_data strptime int_of_str msg = Ok [] /\
  get_controller_events float_of_str int_of_str msg tyme = Ok [].
Proof.
  intros H. unfold make_cycle_data, get_controller_events. rewrite H.
  split; reflexivity.
Qed.




End ParserProperties.



(* ================================================================= *)
(** ** get_time_to_minute *)

Lemma inject_Z_sub (a b : Z) : inject_Z (a - b) == inject_Z a - inject_Z b.
Proof.
  unfold Z.sub. rewrite inject_Z_plus, inject_Z_opp. reflexivity.
Qed.

Lemma microsecond_exact (t : datetime) (m : Z) :
  since_epoch t == inject_Z m / 1000000 ->
  inject_Z (microsecond t) / 1000000 ==
  since_epoch t - inject_Z (Qfloor (since_epoch t)).
Proof.
  intros H. unfold microsecond.
  assert (E : (since_epoch t - inject_Z (Qfloor (since_epoch t))) * 1000000
              == inject_Z (m - Qfloor (since_epoch t) * 1000000)).
  { rewrite inject_Z_sub, inject_Z_mult. rewrite H at 1.
    change (inject_Z 1000000) with 1000000. field. }
  rewrite E, Qfloor_Z, <- E. field.
Qed.

Lemma get_time_to_minute_value (hour_offset : Z) (now : datetime) (m : Z) :
  since_epoch now == inject_Z m / 1000000 ->
  since_epoch (get_time_to_minute hour_offset now) ==
  inject_Z (minute_start hour_offset (since_epoch now)).
Proof.
  intros H. unfold get_time_to_minute, datetime_sub, timedelta_hms.
  cbn [since_epoch]. rewrite (microsecond_exact now m H).
  unfold minute_start, second.
  set (f := Qfloor (since_epoch now)).
  rewrite (Z.mod_eq f 60) by lia.
  rewrite !inject_Z_sub, !inject_Z_plus, !inject_Z_mult, !inject_Z_sub,
    !inject_Z_mult.
  change (inject_Z 60) with 60. change (inject_Z 3600) with 3600.
  ring.
Qed.


Lemma minute_start_mod (h : Z) (q : Q) : (minute_start h q mod 60 = 0)%Z.
Proof.
  unfold minute_start.
  replace (60 * (Qfloor q / 60) - 3600 * h)%Z
    with ((Qfloor q / 60 - 60 * h) * 60)%Z by lia.
  apply Z_mod_mult.
Qed.

Lemma minute_start_mono (h : Z) (q1 q2 : Q) :
  q1 <= q2 -> (minute_start h q1 <= minute_start h q2)%Z.
Proof.
  intros H. unfold minute_start. apply Qfloor_resp_le in H.
  pose proof (Z.div_le_mono _ _ 60 ltac:(lia) H). lia.
Qed.



(* ================================================================= *)
(** ** main *)

Lemma datetime_eqb_sym (a b : datetime) :
  datetime_eqb a b = datetime_eqb b a.
Proof.
  unfold datetime_eqb.
  destruct (Qeq_bool (since_epoch a) (since_epoch b)) eqn:E1,
    (Qeq_bool (since_epoch b) (since_epoch a)) eqn:E2; try reflexivity.
  - apply Qeq_bool_iff in E1. symmetry in E1. apply Qeq_bool_iff in E1.
    congruence.
  - apply Qeq_bool_iff in E2. symmetry in E2. apply Qeq_bool_iff in E2.
    congruence.
Qed.

Lemma write_events_store sev s fs loc c :
  points_of (snd (write_events sev s fs)) loc c = points_of s loc c.
Proof.
  unfold write_events.
  destruct (events_loop_rows sev [Header] s) as [_ H].
  destruct (fold_left events_rows_body sev ([Header], s)) as [rows s'].
  apply H.
Qed.

Lemma write_events_dots sev s fs :
  dots (fst (write_events sev s fs)) =
  Header :: flat_map (fun '(loc, all_events) =>
                        correlated_rows loc all_events (points_of s loc RED))
              sev.
Proof.
  unfold write_events.
  destruct (events_loop_rows sev [Header] s) as [H _].
  destruct (fold_left events_rows_body sev ([Header], s)) as [rows s'].
  exact H.
Qed.

Lemma write_events_lines sev s fs :
  lines (fst (write_events sev s fs)) = lines fs.
Proof.
  unfold write_events.
  destruct (fold_left events_rows_body sev ([Header], s)) as [rows s'].
  reflexivity.
Qed.

Lemma datetime_eqb_refl (a : datetime) : datetime_eqb a a = true.
Proof. unfold datetime_eqb. apply Qeq_bool_iff. reflexivity. Qed.

Lemma datetime_eqb_true (a b : datetime) :
  datetime_eqb a b = true <-> since_epoch a == since_epoch b.
Proof. unfold datetime_eqb. apply Qeq_bool_iff. Qed.

Lemma datetime_eqb_false (a b : datetime) :
  datetime_eqb a b = false <-> ~ since_epoch a == since_epoch b.
Proof.
  rewrite <- datetime_eqb_true. destruct (datetime_eqb a b); split;
    congruence.
Qed.

Lemma no_repeat_snoc (l : list datetime) (t : datetime) :
  no_repeat l = true ->
  (forall pre u, l = pre ++ [u] -> datetime_eqb u t = false) ->
  no_repeat (l ++ [t]) = true.
Proof.
  induction l as [|a [|b l] IH]; intros H Hlast.
  - reflexivity.
  - cbn [app no_repeat]. rewrite (Hlast [] a eq_refl). reflexivity.
  - change (negb (datetime_eqb a b) && no_repeat (b :: l) = true) in H.
    apply andb_true_iff in H. destruct H as [H1 H2].
    change (negb (datetime_eqb a b) && no_repeat ((b :: l) ++ [t]) = true).
    rewrite H1. apply IH; [exact H2|].
    intros pre u E. apply (Hlast (a :: pre) u). rewrite E. reflexivity.
Qed.

Lemma no_repeat_prefix (l : list datetime) (t : datetime) :
  no_repeat (l ++ [t]) = true -> no_repeat l = true.
Proof.
  induction l as [|a [|b l] IH]; intros H; try reflexivity.
  change (negb (datetime_eqb a b) && no_repeat ((b :: l) ++ [t]) = true) in H.
  apply andb_true_iff in H. destruct H as [H1 H2].
  change (negb (datetime_eqb a b) && no_repeat (b :: l) = true).
  rewrite H1. apply IH, H2.
Qed.

Lemma StronglySorted_snoc (l : list Q) (q : Q) :
  StronglySorted Qlt l -> Forall (fun p => p < q) l ->
  StronglySorted Qlt (l ++ [q]).
Proof.
  induction 1 as [|a l Hs IH Ha]; intros Hq; cbn [app].
  - repeat constructor.
  - inversion Hq as [|? ? Haq Hq']; subst.
    constructor; [apply IH, Hq'|].
    apply Forall_app. split; [exact Ha | repeat constructor; exact Haq].
Qed.

Section MainProperties.

Variable strptime : string -> result datetime.
Variable float_of_str : string -> result float.
Variable int_of_str : string -> result Z.

Lemma poll_result a st :
  let st1 := send (CyclesRequest (main_tyme st)) st in
  let st2 := send (TrafficRequest (main_tyme st)) st1 in
  (exists e, poll strptime float_of_str int_of_str a st = (st1, Raise e)) \/
  (exists e, poll strptime float_of_str int_of_str a st = (st2, Raise e)) \/
  (exists cycle_data events,
      make_cycle_data strptime int_of_str (cycle_message a) = Ok cycle_data /\
      get_controller_events float_of_str int_of_str (traffic_message a)
        (main_tyme st) = Ok events /\
      let h := main_histories st in
      let out := update_stored_cycle_points cycle_data (cycle_history h) in
      match snd out with
      | Raise e =>
          poll strptime float_of_str int_of_str a st =
          ({| main_tyme := main_tyme st;
              main_prev_time := main_prev_time st;
              main_histories :=
                {| cycle_history := fst out;
                   event_history := event_history h |};
              main_files := main_files st;
              main_session := main_session st2 |}, Raise e)
      | Ok _ =>
          let sev := update_stored_events events (event_history h) in
          let w := write_events sev (fst out)
                     (write_cycle_data (fst out) (main_files st)) in
          poll strptime float_of_str int_of_str a st =
          ({| main_tyme := get_time_to_minute HOUR_LAG (utcnow a);
              main_prev_time := main_tyme st;
              main_histories :=
                {| cycle_history := snd w; event_history := sev |};
              main_files := fst w;
              main_session := main_session st2 |}, Ok tt)
      end).
Proof.
  unfold poll. cbv zeta. cbn [send main_tyme main_prev_time main_histories
                                main_files main_session].
  destruct (make_cycle_data strptime int_of_str (cycle_message a))
    as [cycle_data|e]; [|left; eauto].
  destruct (get_controller_events float_of_str int_of_str
              (traffic_message a) (main_tyme st)) as [events|e];
    [|right; left; eauto].
  right. right. exists cycle_data, events. repeat split.
  destruct (update_stored_cycle_points cycle_data
              (cycle_history (main_histories st))) as [s1 [[]|e]];
    cbn [fst snd]; [|reflexivity].
  destruct (write_events _ s1 _) as [fs1 s2]. reflexivity.
Qed.

Lemma poll_bounded a st :
  histories_in_bounds st ->
  histories_in_bounds (fst (poll strptime float_of_str int_of_str a st)).
Proof.
  intros [Hc He].
  destruct (poll_result a st)
    as [[e ->] | [[e ->] | (cd & ev & _ & _ & H)]];
    [split; assumption | split; assumption |].
  cbv zeta in H.
  pose proof (update_stored_cycle_points_bounded cd _ Hc) as Hc1.
  destruct (snd (update_stored_cycle_points cd _)); rewrite H; cbn [fst].
  - split; cbn [main_histories cycle_history event_history].
    + intros loc c. rewrite write_events_store. apply Hc1.
    + apply update_stored_events_bounded, He.
  - split; cbn [main_histories cycle_history event_history]; assumption.
Qed.

Lemma iteration_bounded a st :
  histories_in_bounds st ->
  histories_in_bounds (fst (iteration strptime float_of_str int_of_str a st)).
Proof.
  intros H. unfold iteration.
  destruct (datetime_eqb (main_tyme st) (main_prev_time st)).
  - exact H.
  - apply poll_bounded, H.
Qed.

(** X2.  However many passes [main] makes and whatever it is answered,
    exceptions included, no list of points and no list of batches it
    holds has more than three entries. *)
Theorem main_keeps_histories_bounded :
  forall (now : datetime) (fs : Files) (answers : list Answers)
         (loc : Location) (c : TLColor),
    let st := fst (main_loop strptime float_of_str int_of_str now fs answers)
    in
    (length (points_of (cycle_history (main_histories st)) loc c) <= 3)%nat /\
    (length (batches_of (event_history (main_histories st)) loc) <= 3)%nat.
Proof.
  intros now fs answers loc c st.
  assert (H : histories_in_bounds st).
  { unfold st, main_loop.
    apply for_each_preserves with (P := histories_in_bounds).
    - intros a s _. apply iteration_bounded.
    - split; intros l; [intros c'; destruct c'|]; cbv; lia. }
  destruct H as [Hc He]. split; [apply Hc | apply He].
Qed.

Lemma iteration_prev_time a st :
  snd (iteration strptime float_of_str int_of_str a st) = Ok tt ->
  main_prev_time (fst (iteration strptime float_of_str int_of_str a st)) =
  if datetime_eqb (main_tyme st) (main_prev_time st)
  then main_prev_time st else main_tyme st.
Proof.
  unfold iteration.
  destruct (datetime_eqb (main_tyme st) (main_prev_time st)); [reflexivity|].
  destruct (poll_result a st)
    as [[e ->] | [[e ->] | (cd & ev & _ & _ & H)]];
    [discriminate | discriminate |].
  cbv zeta in H.
  destruct (snd (update_stored_cycle_points cd _)); rewrite H;
    [reflexivity | discriminate].
Qed.

Lemma iteration_tyme a st :
  snd (iteration strptime float_of_str int_of_str a st) = Ok tt ->
  main_tyme (fst (iteration strptime float_of_str int_of_str a st)) =
  get_time_to_minute HOUR_LAG (utcnow a).
Proof.
  unfold iteration.
  destruct (datetime_eqb (main_tyme st) (main_prev_time st)); [reflexivity|].
  destruct (poll_result a st)
    as [[e ->] | [[e ->] | (cd & ev & _ & _ & H)]];
    [discriminate | discriminate |].
  cbv zeta in H.
  destruct (snd (update_stored_cycle_points cd _)); rewrite H;
    [reflexivity | discriminate].
Qed.

(** A pass asks the cycles API for [tyme] when [tyme] differs from the
    time of the last poll, and asks for nothing otherwise. *)
Lemma iteration_cycles_asked a st :
  cycles_asked
    (main_session (fst (iteration strptime float_of_str int_of_str a st))) =
  cycles_asked (main_session st) ++
  (if datetime_eqb (main_tyme st) (main_prev_time st)
   then [] else [main_tyme st]).
Proof.
  unfold iteration.
  destruct (datetime_eqb (main_tyme st) (main_prev_time st)).
  - cbn [fst main_session]. rewrite app_nil_r. reflexivity.
  - destruct (poll_result a st)
      as [[e ->] | [[e ->] | (cd & ev & _ & _ & H)]].
    + cbn [fst send main_session]. unfold cycles_asked.
      rewrite flat_map_app. reflexivity.
    + cbn [fst send main_session]. unfold cycles_asked.
      rewrite !flat_map_app. cbn [flat_map app]. rewrite app_nil_r.
      reflexivity.
    + cbv zeta in H.
      destruct (snd (update_stored_cycle_points cd _)); rewrite H;
        cbn [fst send main_session]; unfold cycles_asked;
        rewrite !flat_map_app; cbn [flat_map app]; rewrite app_nil_r;
        reflexivity.
Qed.

(** A pass that returns has asked the traffic API whenever it has asked
    the cycles API; a pass that raises may have asked the cycles API
    alone. *)
Lemma iteration_traffic_asked a st :
  let st' := fst (iteration strptime float_of_str int_of_str a st) in
  let asked := if datetime_eqb (main_tyme st) (main_prev_time st)
               then [] else [main_tyme st] in
  (traffic_asked (main_session st') =
   traffic_asked (main_session st) ++ asked) \/
  (snd (iteration strptime float_of_str int_of_str a st) <> Ok tt /\
   datetime_eqb (main_tyme st) (main_prev_time st) = false /\
   traffic_asked (main_session st') = traffic_asked (main_session st)).
Proof.
  cbv zeta. unfold iteration.
  destruct (datetime_eqb (main_tyme st) (main_prev_time st)).
  - left. cbn [fst main_session]. rewrite app_nil_r. reflexivity.
  - destruct (poll_result a st)
      as [[e ->] | [[e ->] | (cd & ev & _ & _ & H)]].
    + right. cbn [fst snd send main_session]. unfold traffic_asked.
      rewrite flat_map_app. cbn [flat_map app]. rewrite app_nil_r.
      repeat split. discriminate.
    + left. cbn [fst send main_session]. unfold traffic_asked.
      rewrite !flat_map_app. cbn [flat_map app]. rewrite app_nil_r.
      reflexivity.
    + left. cbv zeta in H.
      destruct (snd (update_stored_cycle_points cd _)); rewrite H;
        cbn [fst send main_session]; unfold traffic_asked;
        rewrite !flat_map_app; cbn [flat_map app]; rewrite app_nil_r;
        reflexivity.
Qed.

Lemma main_loop_no_repeat (answers : list Answers) :
  forall st,
    no_repeat (cycles_asked (main_session st)) = true ->
    (forall pre t, cycles_asked (main_session st) = pre ++ [t] ->
                   datetime_eqb t (main_prev_time st) = true) ->
    no_repeat
      (cycles_asked
         (main_session
            (fst (for_each answers
                    (iteration strptime float_of_str int_of_str) st))))
    = true.
Proof.
  induction answers as [|a answers IH]; intros st H1 H2; cbn [for_each].
  - exact H1.
  - unfold bind.
    pose proof (iteration_cycles_asked a st) as HA.
    pose proof (iteration_prev_time a st) as HP.
    assert (Hstep : no_repeat
                      (cycles_asked (main_session st) ++
                       (if datetime_eqb (main_tyme st) (main_prev_time st)
                        then [] else [main_tyme st])) = true).
    { destruct (datetime_eqb (main_tyme st) (main_prev_time st)) eqn:E.
      - rewrite app_nil_r. exact H1.
      - apply no_repeat_snoc; [exact H1|].
        intros pre u Hu. specialize (H2 pre u Hu).
        apply datetime_eqb_true in H2. apply datetime_eqb_false in E.
        apply datetime_eqb_false. intros Hc. apply E.
        rewrite <- Hc. exact H2. }
    destruct (iteration strptime float_of_str int_of_str a st)
      as [st' [[]|e]]; cbn [fst snd] in HA, HP |- *.
    + apply IH.
      * rewrite HA. exact Hstep.
      * intros pre t Ht. rewrite HA in Ht. rewrite (HP eq_refl).
        destruct (datetime_eqb (main_tyme st) (main_prev_time st)) eqn:E.
        -- rewrite app_nil_r in Ht. exact (H2 pre t Ht).
        -- apply app_inj_tail in Ht. destruct Ht as [_ <-].
           apply datetime_eqb_refl.
    + rewrite HA. exact Hstep.
Qed.

Lemma main_loop_traffic (answers : list Answers) :
  forall st,
    traffic_asked (main_session st) = cycles_asked (main_session st) ->
    let session :=
      main_session
        (fst (for_each answers
                (iteration strptime float_of_str int_of_str) st)) in
    traffic_asked session = cycles_asked session \/
    exists t, cycles_asked session = traffic_asked session ++ [t].
Proof.
  induction answers as [|a answers IH]; intros st H; cbn [for_each].
  - left. exact H.
  - unfold bind.
    pose proof (iteration_cycles_asked a st) as HA.
    pose proof (iteration_traffic_asked a st) as HT. cbv zeta in HT.
    destruct (iteration strptime float_of_str int_of_str a st)
      as [st' [[]|e]]; cbn [fst snd] in HA, HT |- *.
    + apply IH. destruct HT as [HT | (Hn & _)]; [|contradiction].
      rewrite HA, HT, H. reflexivity.
    + destruct HT as [HT | (_ & E & HT)].
      * left. rewrite HA, HT, H. reflexivity.
      * right. exists (main_tyme st). rewrite HA, HT, H, E. reflexivity.
Qed.

(** X3.  [main] never asks for the same time twice in a row: in the
    requests it has sent when it stops or raises, no two consecutive
    requests to the cycles API, and no two consecutive requests to the
    traffic API, carry the same time.  The traffic API has been asked
    for the same times as the cycles API, except that the last cycles
    request has no traffic request when the cycles message could not
    be parsed.  With the clock read at 01:02:05, 01:02:10, 01:03:10 and
    01:03:15 and no data in any answer, the three passes send two
    requests to each API, for 00:02:00 and for 00:03:00. *)
Theorem main_never_polls_a_time_twice_in_a_row :
  forall (now : datetime) (fs : Files) (answers : list Answers),
    let session :=
      main_session
        (fst (main_loop strptime float_of_str int_of_str now fs answers)) in
    let example :=
      main_session
        (fst (main_loop strptime float_of_str int_of_str (at_epoch 3725)
                no_files three_passes)) in
    no_repeat (cycles_asked session) = true /\
    no_repeat (traffic_asked session) = true /\
    (traffic_asked session = cycles_asked session \/
     exists t, cycles_asked session = traffic_asked session ++ [t]) /\
    map timestamp (cycles_asked example) = [120; 180] /\
    map timestamp (traffic_asked example) = [120; 180].
Proof.
  intros now fs answers session example.
  assert (H1 : no_repeat (cycles_asked session) = true).
  { apply (main_loop_no_repeat answers (main_start now fs)).
    - reflexivity.
    - intros pre t H. destruct pre; discriminate H. }
  pose proof (main_loop_traffic answers (main_start now fs) eq_refl) as H2.
  fold (main_loop strptime float_of_str int_of_str now fs answers) in H2.
  fold session in H2. cbv zeta in H2.
  split; [exact H1|]. split; [|split; [exact H2|]].
  - destruct H2 as [-> | [t Ht]]; [exact H1|].
    rewrite Ht in H1. apply no_repeat_prefix in H1. exact H1.
  - split; vm_compute; reflexivity.
Qed.

Lemma main_loop_increase (answers : list Answers) :
  forall st cur,
    on_the_minute st cur ->
    Forall whole_microseconds (map utcnow answers) ->
    StronglySorted Qle
      (cur :: map (fun a => since_epoch (utcnow a)) answers) ->
    StronglySorted Qlt (map since_epoch (cycles_asked (main_session st))) ->
    Forall (fun t => since_epoch t <= since_epoch (main_prev_time st))
      (cycles_asked (main_session st)) ->
    Forall (fun t => second t = 0%Z) (cycles_asked (main_session st)) ->
    let asked :=
      cycles_asked
        (main_session
           (fst (for_each answers
                   (iteration strptime float_of_str int_of_str) st))) in
    StronglySorted Qlt (map since_epoch asked) /\
    Forall (fun t => second t = 0%Z) asked.
Proof.
  induction answers as [|a answers IH];
    intros st cur [Int Hle] Hw Hs H1 H2 H3; cbn [for_each].
  - split; assumption.
  - unfold bind.
    pose proof (iteration_cycles_asked a st) as HA.
    pose proof (iteration_prev_time a st) as HP.
    pose proof (iteration_tyme a st) as HT.
    cbn [map] in Hw, Hs. inversion Hw as [|? ? [m Hm] Hw']; subst.
    inversion Hs as [|? ? Hs' Hall]; subst.
    inversion Hall as [|? ? Hcur Hall']; subst.
    assert (Hsec : second (main_tyme st) = 0%Z).
    { unfold second. rewrite (Qfloor_comp _ _ Int), Qfloor_Z.
      apply minute_start_mod. }
    assert (Hlt : datetime_eqb (main_tyme st) (main_prev_time st) = false ->
                  since_epoch (main_prev_time st) < since_epoch (main_tyme st)).
    { intros E. apply datetime_eqb_false in E.
      destruct (Qlt_le_dec (since_epoch (main_prev_time st))
                  (since_epoch (main_tyme st))) as [Hl|Hg]; [exact Hl|].
      exfalso. apply E. apply Qle_antisym; assumption. }
    set (asked1 := cycles_asked (main_session st) ++
                   (if datetime_eqb (main_tyme st) (main_prev_time st)
                    then [] else [main_tyme st])) in *.
    assert (S1 : StronglySorted Qlt (map since_epoch asked1)).
    { unfold asked1.
      destruct (datetime_eqb (main_tyme st) (main_prev_time st)) eqn:E.
      - rewrite app_nil_r. exact H1.
      - rewrite map_app. cbn [map]. apply StronglySorted_snoc; [exact H1|].
        specialize (Hlt eq_refl). apply Forall_map.
        eapply Forall_impl; [|exact H2]. cbv beta. intros t Ht. lra. }
    assert (S3 : Forall (fun t => second t = 0%Z) asked1).
    { unfold asked1. apply Forall_app. split; [exact H3|].
      destruct (datetime_eqb (main_tyme st) (main_prev_time st));
        repeat constructor. exact Hsec. }
    destruct (iteration strptime float_of_str int_of_str a st)
      as [st' [[]|e]]; cbn [fst snd] in HA, HP, HT |- *.
    + specialize (HP eq_refl). specialize (HT eq_refl).
      apply (IH st' (since_epoch (utcnow a))).
      * split.
        -- rewrite HT. apply (get_time_to_minute_value _ _ m Hm).
        -- rewrite HT, (get_time_to_minute_value _ _ m Hm), HP.
           assert (Hmono : inject_Z (minute_start HOUR_LAG cur) <=
                           inject_Z (minute_start HOUR_LAG
                                       (since_epoch (utcnow a)))).
           { rewrite <- Zle_Qle. apply minute_start_mono, Hcur. }
           destruct (datetime_eqb (main_tyme st) (main_prev_time st));
             lra.
      * exact Hw'.
      * exact Hs'.
      * rewrite HA. exact S1.
      * rewrite HA, HP. unfold asked1.
        destruct (datetime_eqb (main_tyme st) (main_prev_time st)) eqn:E.
        -- rewrite app_nil_r. exact H2.
        -- specialize (Hlt eq_refl). apply Forall_app. split.
           ++ eapply Forall_impl; [|exact H2]. cbv beta. intros t Ht. lra.
           ++ repeat constructor. apply Qle_refl.
      * rewrite HA. exact S3.
    + rewrite HA. split; assumption.
Qed.

(** X4.  When the clock has whole microseconds and does not go back,
    the times for which [main] has asked the cycles API when it stops
    or raises are starts of minutes and strictly increase: no minute is
    polled twice. *)
Theorem main_polls_each_minute_once :
  forall (now : datetime) (fs : Files) (answers : list Answers),
    Forall whole_microseconds (now :: map utcnow answers) ->
    StronglySorted Qle
      (since_epoch now :: map (fun a => since_epoch (utcnow a)) answers) ->
    let asked :=
      cycles_asked
        (main_session
           (fst (main_loop strptime float_of_str int_of_str now fs answers)))
    in
    StronglySorted Qlt (map since_epoch asked) /\
    Forall (fun t => second t = 0%Z) asked.
Proof.
  intros now fs answers Hw Hs asked.
  inversion Hw as [|? ? [m Hm] Hw']; subst.
  apply (main_loop_increase answers (main_start now fs) (since_epoch now));
    try assumption; try constructor.
  - apply (get_time_to_minute_value _ _ m Hm).
  - cbn [main_start main_prev_time main_tyme datetime_sub since_epoch]. lra.
Qed.

End MainProperties.

Lemma at_epoch_whole_microseconds (z : Z) : whole_microseconds (at_epoch z).
Proof.
  exists (z * 1000000)%Z. unfold at_epoch. cbn [since_epoch].
  rewrite inject_Z_mult. change (inject_Z 1000000) with 1000000. field.
Qed.

(** X4 on [three_passes]: the first pass polls 00:02:00, the second
    finds the minute unchanged and does not poll, and the third polls
    00:03:00. *)
Lemma main_polls_each_minute_once_witness :
  let asked :=
    cycles_asked
      (main_session
         (fst (main_loop example_strptime example_float example_int
                 (at_epoch 3725) no_files three_passes))) in
  (StronglySorted Qlt (map since_epoch asked) /\
   Forall (fun t => second t = 0%Z) asked) /\
  map timestamp asked = [120; 180].
Proof.
  split; [|vm_compute; reflexivity].
  apply (main_polls_each_minute_once example_strptime example_float
           example_int (at_epoch 3725) no_files three_passes).
  - repeat constructor; apply at_epoch_whole_microseconds.
  - repeat constructor; unfold Qle; simpl; lia.
Defined.

(** X5.  A poll whose two messages both report a failed status returns
    normally, makes its time the time of the last poll, keeps every list
    of points and every batch of events, and still rewrites the four
    files from what is stored. *)
Theorem failed_poll_keeps_histories :
  forall (strptime : string -> result datetime)
         (float_of_str : string -> result float)
         (int_of_str : string -> result Z)
         (a : Answers) (st : MainState),
    datetime_eqb (main_tyme st) (main_prev_time st) = false ->
    status_failed (cycle_message a) = true ->
    status_failed (traffic_message a) = true ->
    let out := iteration strptime float_of_str int_of_str a st in
    let h := main_histories st in
    snd out = Ok tt /\
    main_prev_time (fst out) = main_tyme st /\
    (forall loc c,
        points_of (cycle_history (main_histories (fst out))) loc c =
        points_of (cycle_history h) loc c) /\
    event_history (main_histories (fst out)) = event_history h /\
    (forall c,
        at_color (lines (main_files (fst out))) c =
        Header :: flat_map (fun '(loc, stored_points) =>
                              last_two_rows loc (at_color stored_points c))
                    (cycle_history h)) /\
    dots (main_files (fst out)) =
    Header :: flat_map (fun '(loc, all_events) =>
                          correlated_rows loc all_events
                            (points_of (cycle_history h) loc RED))
                (event_history h).
Proof.
  intros strptime float_of_str int_of_str a st Hne Hc Ht out h.
  subst out. unfold iteration. rewrite Hne. unfold poll.
  cbv zeta. cbn [send main_tyme main_prev_time main_histories main_files
                   main_session].
  destruct (failed_status_is_no_data strptime float_of_str int_of_str
              (cycle_message a) (main_tyme st) Hc) as [-> _].
  destruct (failed_status_is_no_data strptime float_of_str int_of_str
              (traffic_message a) (main_tyme st) Ht) as [_ ->].
  fold h.
  change (update_stored_cycle_points [] (cycle_history h))
    with (cycle_history h, @Ok unit tt).
  change (update_stored_events [] (event_history h)) with (event_history h).
  cbv iota beta zeta.
  pose proof (write_events_store (event_history h) (cycle_history h)
                (write_cycle_data (cycle_history h) (main_files st))) as H1.
  pose proof (write_events_dots (event_history h) (cycle_history h)
                (write_cycle_data (cycle_history h) (main_files st))) as H2.
  pose proof (write_events_lines (event_history h) (cycle_history h)
                (write_cycle_data (cycle_history h) (main_files st))) as H3.
  destruct (write_events (event_history h) (cycle_history h)
              (write_cycle_data (cycle_history h) (main_files st)))
    as [fs1 s1].
  cbn [fst snd main_prev_time main_histories main_files cycle_history
         event_history] in *.
  repeat split; auto.
  intros c. rewrite H3. unfold write_cycle_data.
  rewrite all_rows_lines. destruct c; reflexivity.
Qed.

(** X5 on a poll at 00:02:00 that is answered with status 500. *)
Lemma failed_poll_keeps_histories_witness :
  let a := {| utcnow := at_epoch 3790;
              cycle_message := [("statusCode", JNum 500)];
              traffic_message := [("statusCode", JNum 500)] |} in
  let out := iteration example_strptime example_float example_int a
               polling_state in
  let h := main_histories polling_state in
  snd out = Ok tt /\
  main_prev_time (fst out) = main_tyme polling_state /\
  (forall loc c,
      points_of (cycle_history (main_histories (fst out))) loc c =
      points_of (cycle_history h) loc c) /\
  event_history (main_histories (fst out)) = event_history h /\
  (forall c,
      at_color (lines (main_files (fst out))) c =
      Header :: flat_map (fun '(loc, stored_points) =>
                            last_two_rows loc (at_color stored_points c))
                  (cycle_history h)) /\
  dots (main_files (fst out)) =
  Header :: flat_map (fun '(loc, all_events) =>
                        correlated_rows loc all_events
                          (points_of (cycle_history h) loc RED))
              (event_history h).
Proof.
  apply (failed_poll_keeps_histories example_strptime example_float
           example_int
           {| utcnow := at_epoch 3790;
              cycle_message := [("statusCode", JNum 500)];
              traffic_message := [("statusCode", JNum 500)] |}
           polling_state); reflexivity.
Defined.

(* ================================================================= *)
(** ** update_stored_cycle_points, further *)





(** X6.  [update_stored_cycle_points] does not touch the lists of a
    location that the snapshot does not name. *)
Theorem update_leaves_other_locations :
  forall (all_cycle_data : CycleDataType) (s : StoredCyclePointsType)
         (loc : Location) (c : TLColor),
    ~ In loc (map fst all_cycle_data) ->
    points_of (fst (update_stored_cycle_points all_cycle_data s)) loc c =
    points_of s loc c.
Proof.
  intros acd s loc c Hn. unfold update_stored_cycle_points.
  apply for_each_preserves
    with (P := fun s' => points_of s' loc c = points_of s loc c);
    [|reflexivity].
  intros [loc0 data] s0 Hin H0.
  apply for_each_preserves
    with (P := fun s' => points_of s' loc c = points_of s loc c);
    [|exact H0].
  intros datum s1 _ H1. rewrite datum_body_frame; [exact H1|].
  intros ->. apply Hn. change loc0 with (fst (loc0, data)).
  apply in_map, Hin.
Qed.

(** X6 on a snapshot for [loc1] and a store that also holds [loc7]. *)
Lemma update_leaves_other_locations_witness :
  points_of
    (fst (update_stored_cycle_points green_98_red_100 stored_at_two_locations))
    loc7 GREEN =
  points_of stored_at_two_locations loc7 GREEN.
Proof.
  apply (update_leaves_other_locations green_98_red_100
           stored_at_two_locations loc7 GREEN).
  simpl. intros [H | []]. discriminate H.
Defined.



Lemma evict3_append_length {A} (l : list A) (a : A) :
  (length l <= length (evict3 l ++ [a]))%nat.
Proof.
  rewrite length_app. unfold evict3. simpl.
  destruct (length l =? 3)%nat eqn:E; [|lia].
  apply Nat.eqb_eq in E. destruct l; simpl in *; lia.
Qed.

Lemma datum_body_grows loc datum s loc' c :
  (length (points_of s loc' c) <=
   length (points_of (fst (datum_body loc datum s)) loc' c))%nat.
Proof.
  destruct (datum_body_points loc datum s loc' c) as [E | (_ & p & E & _)];
    rewrite E; [lia | apply evict3_append_length].
Qed.

(** X8.  Neither update function ever shortens a list it holds: over
    any sequence of calls, from any histories, the number of points of a
    color at a location and the number of batches of a location do not
    decrease. *)
Theorem histories_never_shrink :
  forall (calls : list Call) (h : Histories) (loc : Location) (c : TLColor),
    let h' := fst (run_calls calls h) in
    (length (points_of (cycle_history h) loc c) <=
     length (points_of (cycle_history h') loc c))%nat /\
    (length (batches_of (event_history h) loc) <=
     length (batches_of (event_history h') loc))%nat.
Proof.
  intros calls h loc c. cbv zeta. unfold run_calls.
  apply for_each_preserves
    with (P := fun h' =>
                 (length (points_of (cycle_history h) loc c) <=
                  length (points_of (cycle_history h') loc c))%nat /\
                 (length (batches_of (event_history h) loc) <=
                  length (batches_of (event_history h') loc))%nat);
    [|split; lia].
  intros [d|e] h0 _ [Hc He]; cbn [call_body].
  - assert (Hd : (length (points_of (cycle_history h) loc c) <=
                  length (points_of
                            (fst (update_stored_cycle_points d
                                    (cycle_history h0))) loc c))%nat).
    { unfold update_stored_cycle_points.
      apply for_each_preserves
        with (P := fun s' =>
                     (length (points_of (cycle_history h) loc c) <=
                      length (points_of s' loc c))%nat); [|exact Hc].
      intros [loc0 data] s0 _ H0.
      apply for_each_preserves
        with (P := fun s' =>
                     (length (points_of (cycle_history h) loc c) <=
                      length (points_of s' loc c))%nat); [|exact H0].
      intros datum s1 _ H1.
      pose proof (datum_body_grows loc0 datum s1 loc c). lia. }
    destruct (update_stored_cycle_points d (cycle_history h0)) as [s1 r].
    cbn [fst cycle_history event_history] in *. split; assumption.
  - cbn [fst cycle_history event_history]. split; [exact Hc|].
    unfold update_stored_events.
    assert (G : forall e0 s0,
               (length (batches_of (event_history h) loc) <=
                length (batches_of s0 loc))%nat ->
               (length (batches_of (event_history h) loc) <=
                length (batches_of (fold_left events_body e0 s0) loc))%nat).
    { induction e0 as [|[l ev] e0 IH]; intros s0 H0; cbn [fold_left].
      - exact H0.
      - apply IH. rewrite events_body_batches.
        destruct (Location_eqb l loc) eqn:El; [|exact H0].
        apply Location_eqb_eq in El. subst l.
        pose proof (evict3_append_length (batches_of s0 loc)
                      (map timestamp ev)). lia. }
    apply G, He.
Qed.

Lemma record_on_lists s loc datum c :
  points_of (fst (update_stored_cycle_points [(loc, [datum])] s)) loc c =
  at_color (fst (datum_lists datum (lookup no_points s loc))) c /\
  snd (update_stored_cycle_points [(loc, [datum])] s) =
  snd (datum_lists datum (lookup no_points s loc)).
Proof.
  rewrite update_one_record.
  destruct (datum_body_sim loc datum s) as [H1 H2].
  unfold points_of. rewrite H1, H2. auto.
Qed.

(** X9.  In a record that reports all three colors, at a location where
    all three have a stored point, every new point has as [y] the time
    from the start [x] of the last stored RED point to its own
    timestamp: GREEN is measured from that RED, and YELLOW and RED, by
    chaining, from it too. *)
Theorem full_cycle_is_measured_from_last_red :
  forall (s : StoredCyclePointsType) (loc : Location)
         (tg ty tr : datetime) (gs ys rs : list Point) (pg py r : Point),
    points_of s loc GREEN = gs ++ [pg] ->
    points_of s loc YELLOW = ys ++ [py] ->
    points_of s loc RED = rs ++ [r] ->
    let datum : CycleDatum :=
      {| green := Some tg; yellow := Some ty; red := Some tr |} in
    let out := update_stored_cycle_points [(loc, [datum])] s in
    snd out = Ok tt /\
    exists g' y' r',
      points_of (fst out) loc GREEN = evict3 (gs ++ [pg]) ++ [g'] /\
      points_of (fst out) loc YELLOW = evict3 (ys ++ [py]) ++ [y'] /\
      points_of (fst out) loc RED = evict3 (rs ++ [r]) ++ [r'] /\
      x g' = timestamp tg /\ y g' == timestamp tg - x r /\
      x y' = timestamp ty /\ y y' == timestamp ty - x r /\
      x r' = timestamp tr /\ y r' == timestamp tr - x r.
Proof.
  intros s loc tg ty tr gs ys rs pg py r Hg Hy Hr datum out. subst out.
  destruct (record_on_lists s loc datum GREEN) as [EG ER].
  destruct (record_on_lists s loc datum YELLOW) as [EY _].
  destruct (record_on_lists s loc datum RED) as [ED _].
  rewrite ER. unfold points_of in Hg, Hy, Hr.
  destruct (lookup no_points s loc) as [lg ly lr]. simpl in Hg, Hy, Hr.
  subst lg ly lr.
  rewrite datum_lists_unfold in EG, EY, ED |- *.
  unfold color_lists_body in EG, EY, ED |- *. simpl in EG, EY, ED |- *.
  rewrite !index_from_end_last in EG, EY, ED |- *.
  simpl in EG, EY, ED |- *.
  rewrite !index_from_end_last in EG, EY, ED |- *.
  simpl in EG, EY, ED |- *.
  rewrite !index_from_end_last in EG, EY, ED |- *.
  simpl in EG, EY, ED |- *.
  rewrite !append_capped_evict in EG, EY, ED.
  split; [reflexivity|].
  eexists _, _, _.
  split; [exact EG|]. split; [exact EY|]. split; [exact ED|].
  repeat split; simpl; unfold fsub, fadd; rewrite ?Qred_correct; ring.
Qed.

(** X9 with the last RED at 100 and GREEN, YELLOW, RED at 130, 135,
    160. *)
Lemma full_cycle_is_measured_from_last_red_witness :
  let datum : CycleDatum := {| green := Some (at_epoch 130);
                  yellow := Some (at_epoch 135);
                  red := Some (at_epoch 160) |} in
  let out := update_stored_cycle_points [(loc1, [datum])] stored_three_colors
  in
  snd out = Ok tt /\
  exists g' y' r',
    points_of (fst out) loc1 GREEN = evict3 ([] ++ [pt 98 3]) ++ [g'] /\
    points_of (fst out) loc1 YELLOW = evict3 ([] ++ [pt 99 4]) ++ [y'] /\
    points_of (fst out) loc1 RED = evict3 ([pt 95 35] ++ [pt 100 5]) ++ [r'] /\
    x g' = timestamp (at_epoch 130) /\
    y g' == timestamp (at_epoch 130) - x (pt 100 5) /\
    x y' = timestamp (at_epoch 135) /\
    y y' == timestamp (at_epoch 135) - x (pt 100 5) /\
    x r' = timestamp (at_epoch 160) /\
    y r' == timestamp (at_epoch 160) - x (pt 100 5).
Proof.
  exact (full_cycle_is_measured_from_last_red stored_three_colors loc1
           (at_epoch 130) (at_epoch 135) (at_epoch 160)
           [] [] [pt 95 35] (pt 98 3) (pt 99 4) (pt 100 5)
           eq_refl eq_refl eq_refl).
Defined.

(** X10.  A color that is carried forward counts as a point of the
    current record: when a record reports GREEN and RED but not YELLOW,
    and YELLOW has a stored point [py], the new RED point is chained
    onto [py], a point of an earlier cycle, and not onto the GREEN point
    of the record. *)
Theorem red_chains_onto_carried_yellow :
  forall (s : StoredCyclePointsType) (loc : Location)
         (tg tr : datetime) (gs ys rs : list Point) (pg py r : Point),
    points_of s loc GREEN = gs ++ [pg] ->
    points_of s loc YELLOW = ys ++ [py] ->
    points_of s loc RED = rs ++ [r] ->
    let datum : CycleDatum :=
      {| green := Some tg; yellow := None; red := Some tr |} in
    let out := update_stored_cycle_points [(loc, [datum])] s in
    snd out = Ok tt /\
    points_of (fst out) loc GREEN =
    evict3 (gs ++ [pg]) ++
    [{| x := timestamp tg; y := fsub (timestamp tg) (x r) |}] /\
    points_of (fst out) loc YELLOW = evict3 (ys ++ [py]) ++ [py] /\
    points_of (fst out) loc RED =
    evict3 (rs ++ [r]) ++
    [{| x := timestamp tr;
        y := fsub (fadd (y py) (timestamp tr)) (x py) |}].
Proof.
  intros s loc tg tr gs ys rs pg py r Hg Hy Hr datum out. subst out.
  destruct (record_on_lists s loc datum GREEN) as [-> ->].
  destruct (record_on_lists s loc datum YELLOW) as [-> _].
  destruct (record_on_lists s loc datum RED) as [-> _].
  unfold points_of in *.
  destruct (lookup no_points s loc) as [lg ly lr]. simpl in *. subst.
  rewrite datum_lists_unfold. unfold color_lists_body. simpl.
  rewrite !index_from_end_last. simpl.
  rewrite !index_from_end_last. simpl.
  rewrite !index_from_end_last. simpl.
  rewrite !append_capped_evict.
  repeat split; reflexivity.
Qed.

(** X10 with the YELLOW point (99, 4) stored: RED at 160 gets
    y = 4 + 160 - 99 = 65, where the GREEN of the record, (130, 30),
    would have given 60. *)
Lemma red_chains_onto_carried_yellow_witness :
  let datum : CycleDatum := {| green := Some (at_epoch 130); yellow := None;
                  red := Some (at_epoch 160) |} in
  let out := update_stored_cycle_points [(loc1, [datum])] stored_three_colors
  in
  snd out = Ok tt /\
  points_of (fst out) loc1 GREEN =
  evict3 ([] ++ [pt 98 3]) ++
  [{| x := timestamp (at_epoch 130);
      y := fsub (timestamp (at_epoch 130)) (x (pt 100 5)) |}] /\
  points_of (fst out) loc1 YELLOW = evict3 ([] ++ [pt 99 4]) ++ [pt 99 4] /\
  points_of (fst out) loc1 RED =
  evict3 ([pt 95 35] ++ [pt 100 5]) ++
  [{| x := timestamp (at_epoch 160);
      y := fsub (fadd (y (pt 99 4)) (timestamp (at_epoch 160)))
             (x (pt 99 4)) |}].
Proof.
  exact (red_chains_onto_carried_yellow stored_three_colors loc1
           (at_epoch 130) (at_epoch 160)
           [] [] [pt 95 35] (pt 98 3) (pt 99 4) (pt 100 5)
           eq_refl eq_refl eq_refl).
Defined.

(* ================================================================= *)
(** ** The two writers, further *)

Lemma ByColor_ext {A} (a b : ByColor A) :
  (forall c, at_color a c = at_color b c) -> a = b.
Proof.
  intros H. destruct a as [ag ay ar], b as [bg by_ br].
  pose proof (H GREEN). pose proof (H YELLOW). pose proof (H RED).
  simpl in *. congruence.
Qed.

Lemma write_cycle_data_lines (s : StoredCyclePointsType) fs c :
  at_color (lines (write_cycle_data s fs)) c =
  Header :: flat_map (fun '(loc, stored_points) =>
                        last_two_rows loc (at_color stored_points c)) s.
Proof.
  unfold write_cycle_data. rewrite all_rows_lines. destruct c; reflexivity.
Qed.

Lemma write_cycle_data_dots (s : StoredCyclePointsType) fs :
  dots (write_cycle_data s fs) = dots fs.
Proof.
  unfold write_cycle_data. rewrite all_rows_dots. reflexivity.
Qed.

(** X11.  [write_cycle_data] starts every color file afresh: what the
    three files hold afterwards does not depend on what they held
    before, and flushing the same store twice leaves the files as one
    flush does. *)
Theorem write_cycle_data_is_a_fresh_flush :
  forall (s : StoredCyclePointsType) (fs fs' : Files),
    lines (write_cycle_data s fs) = lines (write_cycle_data s fs') /\
    write_cycle_data s (write_cycle_data s fs) = write_cycle_data s fs.
Proof.
  intros s fs fs'.
  assert (H : forall f f',
             lines (write_cycle_data s f) = lines (write_cycle_data s f')).
  { intros f f'. apply ByColor_ext. intros c.
    rewrite !write_cycle_data_lines. reflexivity. }
  split; [apply H|].
  pose proof (H (write_cycle_data s fs) fs) as HL.
  pose proof (write_cycle_data_dots s (write_cycle_data s fs)) as HD.
  destruct (write_cycle_data s (write_cycle_data s fs)) as [l1 d1].
  destruct (write_cycle_data s fs) as [l2 d2].
  simpl in *. congruence.
Qed.

(** X12.  The events file [write_events] leaves is the header followed
    by data rows only, and each of them holds the site, approach and
    movement of a location of the store, as x an event of the oldest
    batch of that location, and as y a time that is not negative and
    that is the event minus the start of a RED point stored for that
    location. *)
Theorem write_events_rows_are_sound :
  forall (stored_events : StoredEventsType) (s : StoredCyclePointsType)
         (fs : Files),
    exists rows,
      dots (fst (write_events stored_events s fs)) = Header :: rows /\
      Forall (event_data_row stored_events s) rows.
Proof.
  intros sev s fs. rewrite write_events_dots.
  eexists. split; [reflexivity|].
  apply Forall_forall. intros row Hin.
  apply in_flat_map in Hin. destruct Hin as ([loc all_events] & Hin & Hrow).
  unfold correlated_rows in Hrow.
  destruct ((length all_events <? 3)%nat
            || (length (points_of s loc RED) <? 3)%nat); [destruct Hrow|].
  apply in_flat_map in Hrow. destruct Hrow as (e & He & Hrow).
  unfold matched_row in Hrow.
  pose proof (closest_red_correct e (points_of s loc RED)) as Hc.
  destruct (closest_red e (points_of s loc RED)) as [d|]; [|destruct Hrow].
  destruct Hrow as [<- | []].
  destruct Hc as (p & Hp & Hle & _ & ->).
  destruct all_events as [|batch rest].
  - destruct He.
  - exists loc, batch, rest, e, p, (fsub e (x p)).
    repeat apply conj; auto.
    + apply (Permutation_in _ (sorted_perm batch)). exact He.
    + apply fsub_eq.
    + rewrite fsub_eq. lra.
Qed.

(* ================================================================= *)
(** ** The snapshot parsers, further *)

Lemma preserves_ok_lift {S A} (P : S -> Prop) (r : result A) :
  preserves_ok P (lift r).
Proof. intros s H a _. exact H. Qed.

Lemma preserves_ok_ret {S A} (P : S -> Prop) (a : A) :
  preserves_ok P (ret a).
Proof. intros s H b _. exact H. Qed.

Lemma preserves_ok_bind {S A B} (P : S -> Prop) (m : M S A)
  (k : A -> M S B) :
  preserves_ok P m -> (forall a, preserves_ok P (k a)) ->
  preserves_ok P (bind m k).
Proof.
  intros Hm Hk s H b. unfold bind. specialize (Hm s H).
  destruct (m s) as [s1 [a|e]]; simpl in *; [|discriminate].
  intros Hb. eapply Hk; [|exact Hb]. eapply Hm. reflexivity.
Qed.

Lemma preserves_ok_for_each {S A} (P : S -> Prop) (l : list A)
  (body : A -> M S unit) :
  (forall a, preserves_ok P (body a)) -> preserves_ok P (for_each l body).
Proof.
  intros Hb. induction l as [|a l IH]; simpl.
  - apply preserves_ok_ret.
  - apply preserves_ok_bind; [apply Hb | intros _; exact IH].
Qed.

Lemma in_keys_dict_set {V} (k k' : Location) (v : V) (d : dict V) :
  In k' (map fst (dict_set k v d)) -> k' = k \/ In k' (map fst d).
Proof.
  induction d as [|[k0 v0] d IH]; simpl.
  - intros [<- | []]. left. reflexivity.
  - destruct (Location_eqb k0 k); simpl.
    + intros [H | H]; auto.
    + intros [H | H]; auto. destruct (IH H); auto.
Qed.

Lemma keys_dict_set {V} (k : Location) (v : V) (d : dict V) :
  NoDup (map fst d) -> NoDup (map fst (dict_set k v d)).
Proof.
  induction d as [|[k0 v0] d IH]; simpl; intros H.
  - constructor; [intros [] | constructor].
  - inversion H as [|? ? Hn Hd]; subst.
    destruct (Location_eqb k0 k) eqn:E; simpl.
    + constructor; assumption.
    + constructor; [|apply IH, Hd].
      intros Hin. apply in_keys_dict_set in Hin. destruct Hin as [-> | Hin].
      * rewrite Location_eqb_refl in E. discriminate.
      * contradiction.
Qed.

Lemma dict_append_well_keyed {V} (k : Location) (v : V) (d : dict (list V)) :
  well_keyed d ->
  well_keyed (dict_set k (lookup [] (vivify [] k d) k ++ [v])
                (vivify [] k d)).
Proof.
  intros [Hk Hl]. rewrite lookup_vivify, dict_set_vivify. split.
  - apply keys_dict_set, Hk.
  - intros k' l Hin. apply in_dict_set in Hin. destruct Hin as [-> | Hin].
    + destruct (lookup [] d k); discriminate.
    + eapply Hl, Hin.
Qed.

Lemma dict_get_not_in {V} (k : Location) (d : dict V) :
  ~ In k (map fst d) -> dict_get d k = None.
Proof.
  induction d as [|[k0 v0] d IH]; simpl; intros H; [reflexivity|].
  destruct (Location_eqb k0 k) eqn:E.
  - apply Location_eqb_eq in E. subst k0. exfalso. apply H. left. reflexivity.
  - apply IH. intros Hin. apply H. right. exact Hin.
Qed.

Section ParsedDictionaries.

Variable strptime : string -> result datetime.
Variable float_of_str : string -> result float.
Variable int_of_str : string -> result Z.

Lemma mvmt_body_well_keyed rsu bound_ item :
  preserves_ok well_keyed (mvmt_body strptime int_of_str rsu bound_ item).
Proof.
  destruct item as [mvmt color_dict]. unfold mvmt_body.
  apply preserves_ok_bind; [apply preserves_ok_lift|]. intros datum.
  destruct (any_values datum); [|apply preserves_ok_ret].
  apply preserves_ok_bind; [apply preserves_ok_lift|]. intros rsu_id_.
  intros data H a _. cbn [fst]. apply dict_append_well_keyed, H.
Qed.

Lemma trigger_body_well_keyed tyme rsu bound_ mvmt trigger :
  preserves_ok well_keyed
    (trigger_body float_of_str int_of_str tyme rsu bound_ mvmt trigger).
Proof.
  unfold trigger_body.
  destruct (negb (String.eqb trigger EmptyString)); [|apply preserves_ok_ret].
  apply preserves_ok_bind; [apply preserves_ok_lift|]. intros rsu_id_.
  intros events H a.
  destruct (event_time float_of_str tyme trigger) as [event|e];
    cbn [fst snd]; [|discriminate].
  intros _. apply dict_append_well_keyed, H.
Qed.

Lemma empty_well_keyed {V} : well_keyed (@nil (Location * list V)).
Proof. split; [constructor | intros k l []]. Qed.

(** X13.  The dictionary [make_cycle_data] returns names each location
    once and gives it at least one record. *)
Theorem make_cycle_data_well_keyed :
  forall (cycle_msg : Message) (data : CycleDataType),
    make_cycle_data strptime int_of_str cycle_msg = Ok data ->
    NoDup (map fst data) /\
    forall loc records, In (loc, records) data -> records <> [].
Proof.
  intros msg data. unfold make_cycle_data.
  destruct (status_failed msg).
  - intros [= <-]. apply empty_well_keyed.
  - match goal with
    | |- returned (?m ?s) = _ -> _ =>
        assert (Hp : preserves_ok well_keyed m)
    end.
    { apply preserves_ok_bind; [apply preserves_ok_lift|]. intros body.
      apply preserves_ok_bind; [apply preserves_ok_lift|]. intros rsus.
      apply preserves_ok_for_each. intros [rsu bound_dict].
      apply preserves_ok_bind; [apply preserves_ok_lift|]. intros bounds.
      apply preserves_ok_for_each. intros [bound_ mvmt_dict].
      apply preserves_ok_bind; [apply preserves_ok_lift|]. intros mvmts.
      apply preserves_ok_for_each. intros item.
      apply mvmt_body_well_keyed. }
    specialize (Hp [] empty_well_keyed).
    match goal with
    | |- returned ?o = _ -> _ => destruct o as [s [[]|e]]
    end; simpl; [|discriminate].
    intros [= <-]. exact (Hp tt eq_refl).
Qed.

(** X14.  The dictionary [get_controller_events] returns names each
    location once and gives it at least one event: a movement whose
    trigger string has no entry does not appear. *)
Theorem get_controller_events_well_keyed :
  forall (traffic_msg : Message) (tyme : datetime)
         (events : ControllerEventsType),
    get_controller_events float_of_str int_of_str traffic_msg tyme
    = Ok events ->
    NoDup (map fst events) /\
    forall loc triggers, In (loc, triggers) events -> triggers <> [].
Proof.
  intros msg tyme events. unfold get_controller_events.
  destruct (status_failed msg).
  - intros [= <-]. apply empty_well_keyed.
  - match goal with
    | |- returned (?m ?s) = _ -> _ =>
        assert (Hp : preserves_ok well_keyed m)
    end.
    { apply preserves_ok_bind; [apply preserves_ok_lift|]. intros body.
      apply preserves_ok_bind; [apply preserves_ok_lift|]. intros rsus.
      apply preserves_ok_for_each. intros [rsu bound_dict].
      apply preserves_ok_bind; [apply preserves_ok_lift|]. intros bounds.
      apply preserves_ok_for_each. intros [bound_ mvmt_dict].
      apply preserves_ok_bind; [apply preserves_ok_lift|]. intros mvmts.
      apply preserves_ok_for_each. intros [mvmt trigger_dict].
      apply preserves_ok_bind; [apply preserves_ok_lift|]. intros triggers.
      apply preserves_ok_for_each. intros trigger.
      apply trigger_body_well_keyed. }
    specialize (Hp [] empty_well_keyed).
    match goal with
    | |- returned ?o = _ -> _ => destruct o as [s [[]|e]]
    end; simpl; [|discriminate].
    intros [= <-]. exact (Hp tt eq_refl).
Qed.

End ParsedDictionaries.

(** X15.  A call of [update_stored_events] gives every location of the
    new events exactly one more batch, after dropping the oldest of
    three, and leaves the batches of every other location as they
    are. *)
Theorem update_stored_events_per_location :
  forall (all_new_events : ControllerEventsType) (s : StoredEventsType)
         (loc : Location),
    NoDup (map fst all_new_events) ->
    batches_of (update_stored_events all_new_events s) loc =
    match dict_get all_new_events loc with
    | Some events => evict3 (batches_of s loc) ++ [map timestamp events]
    | None => batches_of s loc
    end.
Proof.
  unfold update_stored_events.
  induction all_new_events as [|[l ev] rest IH]; intros s loc Hnd;
    cbn [fold_left dict_get].
  - reflexivity.
  - inversion Hnd as [|? ? Hn Hnd']; subst.
    rewrite (IH _ loc Hnd'), events_body_batches.
    destruct (Location_eqb l loc) eqn:E; [|reflexivity].
    apply Location_eqb_eq in E. subst l.
    rewrite (dict_get_not_in loc rest Hn). reflexivity.
Qed.

(** X13 on the message with one movement that has GREEN alone. *)
Lemma make_cycle_data_well_keyed_witness :
  NoDup (map fst [(loc7, [observed GREEN 100 no_colors])]) /\
  forall loc records,
    In (loc, records) [(loc7, [observed GREEN 100 no_colors])] ->
    records <> [].
Proof.
  exact (make_cycle_data_well_keyed example_strptime example_int
           (one_movement_msg "7" "NB" "T" green_only_entry)
           [(loc7, [observed GREEN 100 no_colors])] eq_refl).
Defined.

(** X14 on the message with one movement and two triggers. *)
Lemma get_controller_events_well_keyed_witness :
  NoDup (map fst two_triggers_events) /\
  forall loc triggers,
    In (loc, triggers) two_triggers_events -> triggers <> [].
Proof.
  exact (get_controller_events_well_keyed example_float example_int
           two_triggers_msg (at_epoch 1000) two_triggers_events eq_refl).
Defined.

(** X15 on the events of [two_triggers_events] and three stored
    batches. *)
Lemma update_stored_events_per_location_witness :
  batches_of (update_stored_events two_triggers_events
                [(loc7, [[1]; [2]; [3]])]) loc7 =
  match dict_get two_triggers_events loc7 with
  | Some events =>
      evict3 (batches_of [(loc7, [[1]; [2]; [3]])] loc7)
      ++ [map timestamp events]
  | None => batches_of [(loc7, [[1]; [2]; [3]])] loc7
  end.
Proof.
  apply (update_stored_events_per_location two_triggers_events
           [(loc7, [[1]; [2]; [3]])] loc7).
  repeat constructor. simpl. tauto.
Defined.

Lemma bind_ok {S A B} (m : M S A) (k : A -> M S B) (s : S) (b : B) :
  snd (bind m k s) = Ok b ->
  exists a, snd (m s) = Ok a /\ snd (k a (fst (m s))) = Ok b.
Proof.
  unfold bind. destruct (m s) as [s1 [a|e]]; simpl; [|discriminate].
  intros H. exists a. auto.
Qed.

Lemma for_each_all_ok {S A} (l : list A) (body : A -> M S unit) :
  forall s,
    snd (for_each l body s) = Ok tt ->
    forall a, In a l -> exists s', snd (body a s') = Ok tt.
Proof.
  induction l as [|a0 l IH]; intros s H a Hin; [destruct Hin|].
  simpl in H. apply bind_ok in H. destruct H as ([] & H1 & H2).
  destruct Hin as [<- | Hin].
  - exists s. exact H1.
  - eapply IH; eassumption.
Qed.

Lemma items_of_ok (v : json) l : items_of v = Ok l -> v = JObj l.
Proof. destruct v; simpl; intros [= <-]; reflexivity. Qed.

Lemma returned_ok {S} (out : S * result unit) (s : S) :
  returned out = Ok s -> snd out = Ok tt.
Proof. destruct out as [s' [[]|e]]; simpl; [reflexivity | discriminate]. Qed.

Section AllOrNothing.

Variable strptime : string -> result datetime.
Variable float_of_str : string -> result float.
Variable int_of_str : string -> result Z.

(** X16.  [make_cycle_data] returns a dictionary for a message with
    status 200 only if the whole body is well formed: the body and every
    site and approach in it are objects, the three timestamps of every
    movement parse, and the site of every movement that has a timestamp
    is an integer.  One bad entry anywhere makes the call raise, and no
    part of the snapshot is returned. *)
Theorem make_cycle_data_is_all_or_nothing :
  forall (cycle_msg : Message) (data : CycleDataType),
    status_failed cycle_msg = false ->
    make_cycle_data strptime int_of_str cycle_msg = Ok data ->
    cycle_body_well_formed strptime int_of_str cycle_msg.
Proof.
  intros msg data Hs. unfold make_cycle_data, cycle_body_well_formed.
  rewrite Hs. intros H.
  apply returned_ok in H.
  apply bind_ok in H. destruct H as (body & Hb & H). unfold lift in Hb.
  cbn [snd fst] in Hb, H.
  destruct (msg_get msg "body") as [b|]; [|discriminate].
  injection Hb as ->.
  apply bind_ok in H. destruct H as (rsus & Hr & H).
  cbn [lift snd fst] in Hr, H. apply items_of_ok in Hr. subst body.
  exists rsus. split; [reflexivity|]. intros rsu bound_dict Hin.
  destruct (for_each_all_ok _ _ _ H _ Hin) as [s1 H1].
  apply bind_ok in H1. destruct H1 as (bounds & Hbo & H1).
  cbn [lift snd fst] in Hbo, H1. apply items_of_ok in Hbo.
  exists bounds. split; [exact Hbo|]. intros bound_ mvmt_dict Hin2.
  destruct (for_each_all_ok _ _ _ H1 _ Hin2) as [s2 H2].
  apply bind_ok in H2. destruct H2 as (mvmts & Hm & H2).
  cbn [lift snd fst] in Hm, H2. apply items_of_ok in Hm.
  exists mvmts. split; [exact Hm|]. intros mvmt color_dict Hin3.
  destruct (for_each_all_ok _ _ _ H2 _ Hin3) as [s3 H3].
  unfold mvmt_body in H3.
  apply bind_ok in H3. destruct H3 as (datum & Hd & H3).
  cbn [lift snd fst] in Hd, H3.
  exists datum. split; [exact Hd|]. intros Hany. rewrite Hany in H3.
  apply bind_ok in H3. destruct H3 as (rsu_id_ & Hi & _).
  exists rsu_id_. exact Hi.
Qed.

(** X17.  [get_controller_events] returns a dictionary for a message
    with status 200 only if the whole body is well formed: every level
    is an object, every movement has a string under [trigger_time], and
    for every entry of that string that is not empty the site is an
    integer and the entry is a number. *)
Theorem get_controller_events_is_all_or_nothing :
  forall (traffic_msg : Message) (tyme : datetime)
         (events : ControllerEventsType),
    status_failed traffic_msg = false ->
    get_controller_events float_of_str int_of_str traffic_msg tyme
    = Ok events ->
    traffic_body_well_formed float_of_str int_of_str traffic_msg.
Proof.
  intros msg tyme events Hs.
  unfold get_controller_events, traffic_body_well_formed. rewrite Hs.
  intros H. apply returned_ok in H.
  apply bind_ok in H. destruct H as (body & Hb & H). unfold lift in Hb.
  cbn [snd fst] in Hb, H.
  destruct (msg_get msg "body") as [b|]; [|discriminate].
  injection Hb as ->.
  apply bind_ok in H. destruct H as (rsus & Hr & H).
  cbn [lift snd fst] in Hr, H. apply items_of_ok in Hr. subst body.
  exists rsus. split; [reflexivity|]. intros rsu bound_dict Hin.
  destruct (for_each_all_ok _ _ _ H _ Hin) as [s1 H1].
  apply bind_ok in H1. destruct H1 as (bounds & Hbo & H1).
  cbn [lift snd fst] in Hbo, H1. apply items_of_ok in Hbo.
  exists bounds. split; [exact Hbo|]. intros bound_ mvmt_dict Hin2.
  destruct (for_each_all_ok _ _ _ H1 _ Hin2) as [s2 H2].
  apply bind_ok in H2. destruct H2 as (mvmts & Hm & H2).
  cbn [lift snd fst] in Hm, H2. apply items_of_ok in Hm.
  exists mvmts. split; [exact Hm|]. intros mvmt trigger_dict Hin3.
  destruct (for_each_all_ok _ _ _ H2 _ Hin3) as [s3 H3].
  apply bind_ok in H3. destruct H3 as (triggers & Ht & H3).
  cbn [lift snd fst] in Ht, H3. unfold triggers_of in Ht.
  destruct (subscript trigger_dict "trigger_time") as [[]|e];
    try discriminate.
  injection Ht as <-. exists s. split; [reflexivity|].
  intros trigger Hin4 Hne.
  destruct (for_each_all_ok _ _ _ H3 _ Hin4) as [s4 H4].
  unfold trigger_body in H4.
  destruct (String.eqb trigger EmptyString) eqn:E.
  - apply String.eqb_eq in E. contradiction.
  - cbn [negb] in H4. apply bind_ok in H4.
    destruct H4 as (rsu_id_ & Hi & H4). cbn [lift snd fst] in Hi, H4.
    split; [exists rsu_id_; exact Hi|].
    unfold event_time in H4.
    destruct (float_of_str trigger) as [secs|e]; [|discriminate].
    exists secs. reflexivity.
Qed.

End AllOrNothing.

(** X16 on the message with one movement that has GREEN alone. *)
Lemma make_cycle_data_is_all_or_nothing_witness :
  cycle_body_well_formed example_strptime example_int
    (one_movement_msg "7" "NB" "T" green_only_entry).
Proof.
  exact (make_cycle_data_is_all_or_nothing example_strptime example_int
           (one_movement_msg "7" "NB" "T" green_only_entry)
           [(loc7, [observed GREEN 100 no_colors])] eq_refl eq_refl).
Defined.

(** X17 on the message with one movement and two triggers. *)
Lemma get_controller_events_is_all_or_nothing_witness :
  traffic_body_well_formed example_float example_int two_triggers_msg.
Proof.
  exact (get_controller_events_is_all_or_nothing example_float example_int
           two_triggers_msg (at_epoch 1000) two_triggers_events
           eq_refl eq_refl).
Defined.

(** X18.  Whatever the record and the store, and whether the record is
    processed to its end or raises, the list of a color at a location is
    afterwards either as before or as before with one point added after
    dropping the oldest of three; the added point starts at the
    timestamp the record reports for the color or, when it reports
    none, is the last point of the list once more.  A stored point is
    never changed. *)
Theorem record_adds_at_most_one_point :
  forall (loc : Location) (datum : CycleDatum) (s : StoredCyclePointsType)
         (loc' : Location) (c : TLColor),
    let old := points_of s loc' c in
    let new := points_of
                 (fst (update_stored_cycle_points [(loc, [datum])] s))
                 loc' c in
    new = old \/
    (loc' = loc /\
     exists p, new = evict3 old ++ [p] /\ appended_as datum c old p).
Proof.
  intros loc datum s loc' c. cbv zeta. rewrite update_one_record.
  apply datum_body_points.
Qed.

